(** * Blackjack counter: the decision engine of [src/App.jsx]

    A shallow embedding of the pure functions of [App.jsx] (rank utilities,
    hand evaluation, the Hi-Lo count estimate, the baseline strategy table and
    the count deviations) and of the state, memoised advice and event handlers
    of its component, followed by the properties the specification states
    about them and by further properties read off the code.

    Modelling conventions.
    - A rank is a JavaScript string, here a [string]; nothing restricts it to
      the thirteen symbols of [RANKS].
    - A JavaScript number that only ever holds an integer or [NaN] (hand
      totals, the dealer up value) is a [num]: [Int z] or [NaN].  Every
      comparison with [NaN] is false, every sum with [NaN] is [NaN].
      Integers are exact; the totals of a hand stay far below 2^53.
    - The deck estimate and the true count quotient are fractions.  They are
      given twice: in binary64, as the program computes them (module [B64],
      on the primitive floats), and as exact rationals [Q] ([decksRemaining],
      [trueCount]), the reading in which bounds and monotonicity are stated.
    - An action is one of the five string literals the code returns. *)

From Stdlib Require Import ZArith QArith Qround Qminmax.
From Stdlib Require Import List String Ascii Bool Lia Permutation.
From Stdlib Require Floats.
Import ListNotations.

Local Open Scope string_scope.
Local Open Scope Z_scope.

(** ** JavaScript numbers restricted to integers and NaN *)

Module JS.

Inductive num : Type :=
| NaN : num
| Int : Z -> num.

Definition add (a b : num) : num :=
  match a, b with
  | Int x, Int y => Int (x + y)
  | _, _ => NaN
  end.

Definition sub (a b : num) : num :=
  match a, b with
  | Int x, Int y => Int (x - y)
  | _, _ => NaN
  end.

(** [a === b] on numbers; [NaN === NaN] is false. *)
Definition eqb (a b : num) : bool :=
  match a, b with
  | Int x, Int y => x =? y
  | _, _ => false
  end.

Definition ltb (a b : num) : bool :=
  match a, b with
  | Int x, Int y => x <? y
  | _, _ => false
  end.

Definition leb (a b : num) : bool :=
  match a, b with
  | Int x, Int y => x <=? y
  | _, _ => false
  end.

Definition gtb (a b : num) : bool := ltb b a.
Definition geb (a b : num) : bool := leb b a.

(** [xs.includes(a)]: SameValueZero membership in an array of integers. *)
Definition includes (xs : list Z) (a : num) : bool :=
  match a with
  | Int x => existsb (Z.eqb x) xs
  | NaN => false
  end.

(** [parseInt(s, 10)]: leading white space is skipped, one sign is read, then
    the longest run of decimal digits; no digit gives [NaN].  Strings are byte
    strings, so the white space recognised is the ASCII one. *)
Definition isWhite (c : ascii) : bool :=
  let n := nat_of_ascii c in
  ((9 <=? n)%nat && (n <=? 13)%nat) || (n =? 32)%nat.

Fixpoint skipWhite (s : string) : string :=
  match s with
  | String c s' => if isWhite c then skipWhite s' else s
  | EmptyString => s
  end.

Definition digitOf (c : ascii) : option Z :=
  let n := Z.of_nat (nat_of_ascii c) in
  if (48 <=? n) && (n <=? 57) then Some (n - 48) else None.

Fixpoint digits (s : string) (acc : option Z) : option Z :=
  match s with
  | String c s' =>
      match digitOf c with
      | Some d =>
          digits s' (Some (10 * match acc with Some a => a | None => 0 end + d))
      | None => acc
      end
  | EmptyString => acc
  end.

Definition parseInt (s : string) : num :=
  let s := skipWhite s in
  let '(sign, s) :=
    match s with
    | String "-" s' => (-1, s')
    | String "+" s' => (1, s')
    | _ => (1, s)
    end in
  match digits s None with
  | Some n => Int (sign * n)
  | None => NaN
  end.

End JS.

Import JS.

Declare Scope num_scope.
Delimit Scope num_scope with num.
Bind Scope num_scope with num.
Infix "+" := JS.add : num_scope.
Infix "-" := JS.sub : num_scope.
Infix "===" := JS.eqb (at level 70, no associativity) : num_scope.
Infix "<?" := JS.ltb : num_scope.
Infix "<=?" := JS.leb : num_scope.
Infix ">?" := JS.gtb : num_scope.
Infix ">=?" := JS.geb : num_scope.
Coercion Int : Z >-> num.

(** ** Rank and value utilities *)

Definition RANKS : list string :=
  ["A"; "2"; "3"; "4"; "5"; "6"; "7"; "8"; "9"; "10"; "J"; "Q"; "K"].

(** [arr.includes(rank)] on an array of strings. *)
Definition includes (xs : list string) (r : string) : bool :=
  existsb (String.eqb r) xs.

Definition hiLoValue (rank : string) : Z :=
  if includes ["2"; "3"; "4"; "5"; "6"] rank then 1
  else if includes ["7"; "8"; "9"] rank then 0
  else -1.

Definition isTenValue (rank : string) : bool :=
  (rank =? "10")%string || (rank =? "J")%string
  || (rank =? "Q")%string || (rank =? "K")%string.

Definition toDealerUpValue (rank : string) : num :=
  if (rank =? "A")%string then Int 11
  else if isTenValue rank then Int 10
  else parseInt rank.

(** ** Hand evaluation *)

Record HandValue : Type := mkHandValue { total : num; isSoft : bool }.

(** One pass of the [for] loop of [bestTotal] over the state [(total, aces)]. *)
Definition addCard (st : num * nat) (r : string) : num * nat :=
  let '(total, aces) := st in
  if (r =? "A")%string then ((total + Int 11)%num, S aces)
  else if isTenValue r then ((total + Int 10)%num, aces)
  else ((total + parseInt r)%num, aces).

(** The [while (total > 21 && aces > 0)] loop; [aces] is its measure. *)
Fixpoint demote (total : num) (aces : nat) : num * nat :=
  match aces with
  | O => (total, O)
  | S aces' =>
      if (total >? Int 21)%num then demote (total - Int 10)%num aces'
      else (total, aces)
  end.

Definition aceCountOf (ranks : list string) : nat :=
  List.length (filter (fun r => (r =? "A")%string) ranks).

(** The values of [total] and [aces] when the [while] loop exits. *)
Definition settle (ranks : list string) : num * nat :=
  let '(total, aces) := fold_left addCard ranks (Int 0, O) in
  demote total aces.

Definition bestTotal (ranks : list string) : HandValue :=
  let '(total, aces) := settle ranks in
  let aceCount := aceCountOf ranks in
  let isSoft :=
    (0 <? aceCount)%nat && (total <=? Int 21)%num && (aces <? aceCount)%nat in
  {| total := total; isSoft := isSoft |}.

Definition isPair (hand : list string) : bool :=
  match hand with
  | [a; b] => if isTenValue a && isTenValue b then true else (a =? b)%string
  | _ => false
  end.

(** [pairKey] destructures the first two entries; a missing entry is
    [undefined], which is not ten valued, and an empty hand gives [None]. *)
Definition pairKey (hand : list string) : option string :=
  match hand with
  | a :: b :: _ => Some (if isTenValue a && isTenValue b then "10" else a)
  | [a] => Some a
  | [] => None
  end.

(** ** Baseline strategy: multi-deck S17 DAS LS *)

Inductive Action : Type := Stand | Hit | Double | Split | Surrender.

Definition Action_eqb (a b : Action) : bool :=
  match a, b with
  | Stand, Stand | Hit, Hit | Double, Double
  | Split, Split | Surrender, Surrender => true
  | _, _ => false
  end.

Record Opts : Type :=
  mkOpts { canSplit : bool; canDouble : bool; canSurrender : bool }.

(** [pk === "k"] for the possibly undefined pair key. *)
Definition keyIs (pk : option string) (k : string) : bool :=
  match pk with
  | Some s => (s =? k)%string
  | None => false
  end.

(** The four blocks of [baselineAction], in source order.  A block answers
    [Some a] where the source returns [a] and [None] where control leaves
    the block without returning. *)

Definition lateSurrender (opts : Opts) (hand : list string)
    (total : num) (isSoft : bool) (up : num) : option Action :=
  if canSurrender opts && (List.length hand =? 2)%nat then
    if negb isSoft && (total === 16)%num
       && ((up === 9) || (up === 10) || (up === 11))%num then Some Surrender
    else if negb isSoft && (total === 15)%num && (up === 10)%num
    then Some Surrender
    else None
  else None.

Definition pairs (opts : Opts) (hand : list string) (up : num)
  : option Action :=
  if canSplit opts && isPair hand then
    let pk := pairKey hand in
    if keyIs pk "A" then Some Split
    else if keyIs pk "10" then Some Stand
    else if keyIs pk "9" then
      if JS.includes [2; 3; 4; 5; 6; 8; 9] up then Some Split else Some Stand
    else if keyIs pk "8" then Some Split
    else if keyIs pk "7" then
      if (up >=? 2)%num && (up <=? 7)%num then Some Split else Some Hit
    else if keyIs pk "6" then
      if (up >=? 2)%num && (up <=? 6)%num then Some Split else Some Hit
    else if keyIs pk "5" then
      if canDouble opts && (up >=? 2)%num && (up <=? 9)%num then Some Double
      else Some Hit
    else if keyIs pk "4" then
      if (up === 5)%num || (up === 6)%num then Some Split else Some Hit
    else if keyIs pk "3" || keyIs pk "2" then
      if (up >=? 2)%num && (up <=? 7)%num then Some Split else Some Hit
    else None
  else None.

Definition softTotals (opts : Opts) (total up : num) : Action :=
  if (total >=? 20)%num then Stand
  else if (total === 19)%num then
    if canDouble opts && (up === 6)%num then Double else Stand
  else if (total === 18)%num then
    if canDouble opts && (up >=? 3)%num && (up <=? 6)%num then Double
    else if (up === 2)%num || (up === 7)%num || (up === 8)%num then Stand
    else Hit
  else if (total === 17)%num then
    if canDouble opts && (up >=? 3)%num && (up <=? 6)%num then Double else Hit
  else if (total === 16)%num || (total === 15)%num then
    if canDouble opts && (up >=? 4)%num && (up <=? 6)%num then Double else Hit
  else if (total === 14)%num || (total === 13)%num then
    if canDouble opts && ((up === 5)%num || (up === 6)%num) then Double
    else Hit
  else Hit.

Definition hardTotals (opts : Opts) (total up : num) : Action :=
  if (total >=? 17)%num then Stand
  else if (total <=? 8)%num then Hit
  else if (total === 9)%num then
    if canDouble opts && (up >=? 3)%num && (up <=? 6)%num then Double else Hit
  else if (total === 10)%num then
    if canDouble opts && (up >=? 2)%num && (up <=? 9)%num then Double else Hit
  else if (total === 11)%num then
    if canDouble opts && (up >=? 2)%num && (up <=? 10)%num then Double
    else if (up === 11)%num then Hit else Double
  else if (total === 12)%num then
    if (up >=? 4)%num && (up <=? 6)%num then Stand else Hit
  else if (total >=? 13)%num && (total <=? 16)%num then
    if (up >=? 2)%num && (up <=? 6)%num then Stand else Hit
  else Hit.

Definition baselineAction (hand : list string) (dealerUp : string)
    (opts : Opts) : Action :=
  let up := toDealerUpValue dealerUp in
  let '(mkHandValue total isSoft) := bestTotal hand in
  match lateSurrender opts hand total isSoft up with
  | Some a => a
  | None =>
      match pairs opts hand up with
      | Some a => a
      | None =>
          if isSoft then softTotals opts total up
          else hardTotals opts total up
      end
  end.

(** ** Key deviations (Hi-Lo true count) *)

Record Deviated : Type := mkDeviated { action : Action; notes : list string }.

(** Each block of [applyDeviations] is [if (cond) { if (base !== a) return
    ... }]; the two tests are joined by [&&] and the blocks chained in source
    order, the last [else] being the final [return]. *)
Definition applyDeviations (base : Action) (hand : list string)
    (dealerUp : string) (tc : Z) (opts : Opts) : Deviated :=
  let up := toDealerUpValue dealerUp in
  let '(mkHandValue total isSoft) := bestTotal hand in
  if negb isSoft && (total === 16)%num && (up === 10)%num && (tc >=? 0)
     && negb (Action_eqb base Stand)
  then mkDeviated Stand ["Deviation: 16 vs 10 → Stand at TC ≥ 0"]
  else if negb isSoft && (total === 15)%num && (up === 10)%num && (tc >=? 4)
     && negb (Action_eqb base Stand)
  then mkDeviated Stand ["Deviation: 15 vs 10 → Stand at TC ≥ +4"]
  else if negb isSoft && (total === 16)%num && (up === 9)%num && (tc >=? 5)
     && negb (Action_eqb base Stand)
  then mkDeviated Stand ["Deviation: 16 vs 9 → Stand at TC ≥ +5"]
  else if negb isSoft && (total === 16)%num && (up === 11)%num && (tc >=? 3)
     && negb (Action_eqb base Stand)
  then mkDeviated Stand ["Deviation: 16 vs A → Stand at TC ≥ +3"]
  else if negb isSoft && (total === 12)%num && (up === 3)%num && (tc >=? 1)
     && negb (Action_eqb base Stand)
  then mkDeviated Stand ["Deviation: 12 vs 3 → Stand at TC ≥ +1"]
  else if negb isSoft && (total === 12)%num && (up === 2)%num && (tc >=? 3)
     && negb (Action_eqb base Stand)
  then mkDeviated Stand ["Deviation: 12 vs 2 → Stand at TC ≥ +3"]
  else if canDouble opts && negb isSoft && (total === 10)%num
     && (up === 10)%num && (tc >=? 4) && negb (Action_eqb base Double)
  then mkDeviated Double ["Deviation: 10 vs 10 → Double at TC ≥ +4"]
  else if canDouble opts && negb isSoft && (total === 10)%num
     && (up === 11)%num && (tc >=? 3) && negb (Action_eqb base Double)
  then mkDeviated Double ["Deviation: 10 vs A → Double at TC ≥ +3"]
  else if canDouble opts && negb isSoft && (total === 11)%num
     && (up === 11)%num && (tc >=? 0) && negb (Action_eqb base Double)
  then mkDeviated Double ["Deviation: 11 vs A → Double at TC ≥ 0"]
  else mkDeviated base [].

(** ** Count estimate (the memoised values of [App])

    [clamp], [decksRemaining] and [trueCount] below take the two quotients
    exactly, in [Q]; the binary64 computation is in module [B64]. *)

Definition clamp (n lo hi : Q) : Q := Qmax lo (Qmin hi n).

Definition totalCards (decks : Z) : Z := decks * 52.

Definition runningCount (seen : list string) : Z :=
  fold_left (fun s r => s + hiLoValue r) seen 0.

Definition decksRemaining (decks : Z) (seen : list string) : Q :=
  let remainingCards := totalCards decks - Z.of_nat (List.length seen) in
  let est := (inject_Z remainingCards / 52)%Q in
  clamp est (1 # 4) (inject_Z decks).

(** [tc < 0 ? Math.ceil(tc) : Math.floor(tc)]. *)
Definition trueCount (runningCount : Z) (decksRemaining : Q) : Z :=
  let tc := (inject_Z runningCount / decksRemaining)%Q in
  if Qlt_le_dec tc 0 then Qceiling tc else Qfloor tc.

(** ** Count estimate in binary64

    The same memoised values on the primitive binary64 floats, whose
    division, multiplication, subtraction and comparison are the IEEE 754
    operations of a JavaScript number.  [Math.floor] and [Math.ceil] are
    taken on the exact value of the float; a result that is no finite number
    ([NaN] or an infinity) is [None]. *)

Module B64.

Import Floats.

(** The number holding an integer; exact below 2^53 in absolute value. *)
Definition ofZ (z : Z) : float :=
  match z with
  | Z0 => 0%float
  | Zpos _ => PrimFloat.of_uint63 (Uint63.of_Z z)
  | Zneg p => PrimFloat.opp (PrimFloat.of_uint63 (Uint63.of_Z (Zpos p)))
  end.

(** The exact value of a finite float: [(-1)^s * m * 2^e]. *)
Definition value (x : float) : option Q :=
  match Prim2SF x with
  | S754_zero _ => Some 0%Q
  | S754_finite s m e =>
      let n := if s then Zneg m else Zpos m in
      Some (match e with
            | Z0 => inject_Z n
            | Zpos p => inject_Z (n * 2 ^ Zpos p)
            | Zneg p => n # (2 ^ p)
            end)
  | S754_infinity _ | S754_nan => None
  end.

Definition Math_floor (x : float) : option Z := option_map Qfloor (value x).
Definition Math_ceil (x : float) : option Z := option_map Qceiling (value x).

(** [Math.max] and [Math.min] of two numbers: [NaN] if either is; the sign
    of a zero result is not tracked (the bounds used here are 0.25 and the
    number of decks). *)
Definition Math_max (a b : float) : float :=
  if PrimFloat.is_nan a || PrimFloat.is_nan b then PrimFloat.nan
  else if PrimFloat.ltb a b then b else a.

Definition Math_min (a b : float) : float :=
  if PrimFloat.is_nan a || PrimFloat.is_nan b then PrimFloat.nan
  else if PrimFloat.ltb b a then b else a.

Definition clamp (n lo hi : float) : float :=
  Math_max lo (Math_min hi n).

Definition totalCards (decks : float) : float :=
  PrimFloat.mul decks 52%float.

Definition decksRemaining (decks : float) (seen : list string) : float :=
  let remainingCards :=
    PrimFloat.sub (totalCards decks) (ofZ (Z.of_nat (List.length seen))) in
  let est := PrimFloat.div remainingCards 52%float in
  clamp est 0.25%float decks.

(** [tc < 0 ? Math.ceil(tc) : Math.floor(tc)]. *)
Definition trueCount (runningCount decksRemaining : float) : option Z :=
  let tc := PrimFloat.div runningCount decksRemaining in
  if PrimFloat.ltb tc 0%float then Math_ceil tc else Math_floor tc.

End B64.

(** ** The specification's reading, for comparison with the code *)

(** Specification 4.2, in its words: a hand is soft when at least one ace
    was never demoted and the final total is at most 21.  [aces] counts the
    aces not yet demoted: it starts at the number of aces and the loop takes
    one off per demotion. *)
Definition isSoft_spec (ranks : list string) : bool :=
  let '(total, aces) := settle ranks in
  (0 <? aces)%nat && (total <=? Int 21)%num.

(** Specification 4.1 and 7, in their words: a weight for the thirteen
    ranks, [InvalidRankError] for anything else. *)
Inductive RankError : Type := InvalidRankError.

Definition countingWeight_spec (rank : string) : RankError + Z :=
  if includes ["2"; "3"; "4"; "5"; "6"] rank then inr 1
  else if includes ["7"; "8"; "9"] rank then inr 0
  else if includes ["10"; "J"; "Q"; "K"; "A"] rank then inr (-1)
  else inl InvalidRankError.

(** Specification 4.5, in its words: an ordered table of index plays on
    (hard total, dealer upcard, count threshold), the first that fires wins.
    A play is tried on an evaluation [v] of the hand; it fires only on a hard
    one. *)
Record IndexPlay : Type := mkIndexPlay {
  ipTotal : Z;
  ipUp : Z;
  ipThreshold : Z;
  ipOverride : Action;
  ipNeedsDouble : bool;
  ipNote : string
}.

Definition indexPlays : list IndexPlay :=
  [ mkIndexPlay 16 10 0 Stand false "Deviation: 16 vs 10 → Stand at TC ≥ 0";
    mkIndexPlay 15 10 4 Stand false "Deviation: 15 vs 10 → Stand at TC ≥ +4";
    mkIndexPlay 16 9 5 Stand false "Deviation: 16 vs 9 → Stand at TC ≥ +5";
    mkIndexPlay 16 11 3 Stand false "Deviation: 16 vs A → Stand at TC ≥ +3";
    mkIndexPlay 12 3 1 Stand false "Deviation: 12 vs 3 → Stand at TC ≥ +1";
    mkIndexPlay 12 2 3 Stand false "Deviation: 12 vs 2 → Stand at TC ≥ +3";
    mkIndexPlay 10 10 4 Double true "Deviation: 10 vs 10 → Double at TC ≥ +4";
    mkIndexPlay 10 11 3 Double true "Deviation: 10 vs A → Double at TC ≥ +3";
    mkIndexPlay 11 11 0 Double true "Deviation: 11 vs A → Double at TC ≥ 0" ].

Definition fires (base : Action) (v : HandValue) (up : num) (tc : Z)
    (opts : Opts) (p : IndexPlay) : bool :=
  implb (ipNeedsDouble p) (canDouble opts)
  && negb (isSoft v) && (total v === ipTotal p)%num && (up === ipUp p)%num
  && (tc >=? ipThreshold p) && negb (Action_eqb base (ipOverride p)).

(** First match in the table, for an evaluation [v] and an up value. *)
Definition resolveTable (base : Action) (v : HandValue) (up : num) (tc : Z)
    (opts : Opts) : Deviated :=
  match find (fires base v up tc opts) indexPlays with
  | Some p => mkDeviated (ipOverride p) [ipNote p]
  | None => mkDeviated base []
  end.

(** Specification 4.2 as an evaluation: the total of the hand with the
    soft flag in the specification's reading. *)
Definition evaluate_spec (hand : list string) : HandValue :=
  {| total := total (bestTotal hand); isSoft := isSoft_spec hand |}.

(** Specification 4.5: the table applied to the specification's evaluation
    of the hand, so that a play fires only on a hand with no ace still
    counted as 11. *)
Definition resolveDeviation_spec (base : Action) (hand : list string)
    (dealerUp : string) (tc : Z) (opts : Opts) : Deviated :=
  resolveTable base (evaluate_spec hand) (toDealerUpValue dealerUp) tc opts.

(** ** Auxiliary readings of the evaluator loop *)

(** The numeric value a rank adds to the total in the [for] loop. *)
Definition cardValue (r : string) : num :=
  if (r =? "A")%string then Int 11
  else if isTenValue r then Int 10
  else parseInt r.

Definition aceBit (r : string) : nat := if (r =? "A")%string then 1 else 0.

(** The total of the [for] loop before any demotion. *)
Definition rawTotal (ranks : list string) : num :=
  fold_left (fun t r => (t + cardValue r)%num) ranks (Int 0).

(** [Subseq h s]: the cards of [h] occur in [s], in the same order. *)
Inductive Subseq : list string -> list string -> Prop :=
| Subseq_nil : forall s, Subseq [] s
| Subseq_skip : forall x h s, Subseq h s -> Subseq h (x :: s)
| Subseq_take : forall x h s, Subseq h s -> Subseq (x :: h) (x :: s).

(** A complete deck: four cards of each of the thirteen ranks, and a shoe
    of [n] decks.  Used to state the balance of the Hi-Lo weights. *)
Definition fullDeck : list string :=
  flat_map (fun r => repeat r 4) RANKS.

Definition shoe (n : nat) : list string :=
  List.concat (repeat fullDeck n).

(** ** The component [App]: memoised advice and event handlers

    The state held by the [useState] hooks is a record; each handler maps the
    state before the event to the state after it, the updater functions
    passed to the setters being applied once each, in call order. *)

Module App.

Record State : Type := mkState {
  stage : string;
  players : Z;
  decks : Z;
  dealerUp : string;
  seen : list string;
  myHand : list string
}.

(** [useState] initial values. *)
Definition initial : State :=
  mkState "setup" 4 2 "10" [] [].

(** [baseline]: [null] (here [None]) for a falsy, that is empty, upcard. *)
Definition baseline (myHand : list string) (dealerUp : string)
  : option Action :=
  if (dealerUp =? "")%string then None
  else Some (baselineAction myHand dealerUp
               {| canSplit := true;
                  canDouble := (List.length myHand =? 2)%nat;
                  canSurrender := (List.length myHand =? 2)%nat |}).

Record Recommendation : Type := mkRecommendation {
  base : Action;
  final : Action;
  notes : list string;
  insurance : string
}.

(** [recommendation]; the options object passed to [applyDeviations] has no
    [canSplit] field, which reads as a falsy [undefined]. *)
Definition recommendation (myHand : list string) (dealerUp : string)
    (trueCount : Z) : option Recommendation :=
  match baseline myHand dealerUp with
  | None => None
  | Some b =>
      if (dealerUp =? "")%string then None
      else
        let canDouble := (List.length myHand =? 2)%nat in
        let canSurrender := (List.length myHand =? 2)%nat in
        let '(mkDeviated a n) :=
          applyDeviations b myHand dealerUp trueCount
            {| canSplit := false; canDouble := canDouble;
               canSurrender := canSurrender |} in
        let insurance :=
          if (dealerUp =? "A")%string
          then (if trueCount >=? 3 then "Buy (TC ≥ +3)" else "Do not buy")
          else "N/A" in
        Some (mkRecommendation b a n insurance)
  end.

(** The advice shown for a state: count, estimate and recommendation chained
    as the memoised values of the component are. *)
Definition advice (st : State) : option Recommendation :=
  recommendation (myHand st) (dealerUp st)
    (trueCount (runningCount (seen st))
               (decksRemaining (decks st) (seen st))).

Definition resetPlay (st : State) : State :=
  mkState (stage st) (players st) (decks st) "10" [] [].

Definition start (st : State) : State :=
  let st := resetPlay st in
  mkState "play" (players st) (decks st) (dealerUp st) (seen st) (myHand st).

Definition addSeen (r : string) (st : State) : State :=
  mkState (stage st) (players st) (decks st) (dealerUp st)
          (seen st ++ [r])%list (myHand st).

Definition addMy (r : string) (st : State) : State :=
  mkState (stage st) (players st) (decks st) (dealerUp st)
          (seen st ++ [r])%list (myHand st ++ [r])%list.

(** [prev.slice(0, -1)] is [removelast prev]. *)
Definition undoSeen (st : State) : State :=
  mkState (stage st) (players st) (decks st) (dealerUp st)
          (removelast (seen st)) (myHand st).

Definition undoMy (st : State) : State :=
  match myHand st with
  | [] => st
  | _ :: _ =>
      mkState (stage st) (players st) (decks st) (dealerUp st)
              (removelast (seen st)) (removelast (myHand st))
  end.

Definition setupValid (st : State) : bool :=
  (players st >=? 1) && (players st <=? 7)
  && (decks st >=? 1) && (decks st <=? 8).

(** The events of the play screen: the card pickers, the two undo buttons,
    the two clear buttons, the upcard buttons and the reset button. *)
Inductive Event : Type :=
| AddSeen (r : string)
| AddMy (r : string)
| UndoSeen
| UndoMy
| ClearSeen
| ClearMy
| SetDealerUp (r : string)
| ResetPlay.

Definition step (st : State) (e : Event) : State :=
  match e with
  | AddSeen r => addSeen r st
  | AddMy r => addMy r st
  | UndoSeen => undoSeen st
  | UndoMy => undoMy st
  | ClearSeen =>
      mkState (stage st) (players st) (decks st) (dealerUp st) [] (myHand st)
  | ClearMy =>
      mkState (stage st) (players st) (decks st) (dealerUp st) (seen st) []
  | SetDealerUp r =>
      mkState (stage st) (players st) (decks st) r (seen st) (myHand st)
  | ResetPlay => resetPlay st
  end.

Definition run (st : State) (es : list Event) : State :=
  fold_left step es st.

(** The events that never take a card off [seen] on their own. *)
Definition keepsSeen (e : Event) : bool :=
  match e with
  | UndoSeen | ClearSeen => false
  | _ => true
  end.

End App.

(** * Properties *)

(** ** Arithmetic of [num] *)

Lemma num_add_comm (a b : num) : (a + b)%num = (b + a)%num.
Proof. destruct a, b; simpl; try reflexivity; f_equal; lia. Qed.

Lemma num_add_assoc (a b c : num) : (a + b + c)%num = (a + (b + c))%num.
Proof. destruct a, b, c; simpl; try reflexivity; f_equal; lia. Qed.

Lemma num_add_swap (a b c : num) : (a + b + c)%num = (a + c + b)%num.
Proof. now rewrite !num_add_assoc, (num_add_comm b c). Qed.

(** ** Hand evaluation *)

Lemma addCard_split (t : num) (a : nat) (r : string) :
  addCard (t, a) r = ((t + cardValue r)%num, (a + aceBit r)%nat).
Proof.
  unfold addCard, cardValue, aceBit.
  destruct (r =? "A")%string.
  - f_equal; lia.
  - destruct (isTenValue r); f_equal; lia.
Qed.

Lemma addCard_swap (st : num * nat) (r1 r2 : string) :
  addCard (addCard st r1) r2 = addCard (addCard st r2) r1.
Proof.
  destruct st as [t a]. rewrite !addCard_split.
  f_equal; [apply num_add_swap | lia].
Qed.

Lemma fold_addCard_perm (l1 l2 : list string) :
  Permutation l1 l2 ->
  forall st, fold_left addCard l1 st = fold_left addCard l2 st.
Proof.
  induction 1 as [| x l l' _ IH | x y l | l l' l'' _ IH1 _ IH2]; intros st; simpl.
  - reflexivity.
  - apply IH.
  - now rewrite addCard_swap.
  - now rewrite IH1.
Qed.

Lemma aceCountOf_perm (l1 l2 : list string) :
  Permutation l1 l2 -> aceCountOf l1 = aceCountOf l2.
Proof.
  intros HP. unfold aceCountOf.
  apply Permutation_length.
  induction HP as [| x l l' _ IH | x y l | l l' l'' _ IH1 _ IH2]; simpl.
  - constructor.
  - destruct (x =? "A")%string; [now constructor | exact IH].
  - destruct (x =? "A")%string, (y =? "A")%string;
      try apply Permutation_refl; apply perm_swap.
  - eapply Permutation_trans; eassumption.
Qed.

Lemma settle_perm (l1 l2 : list string) :
  Permutation l1 l2 -> settle l1 = settle l2.
Proof.
  intros HP. unfold settle. now rewrite (fold_addCard_perm l1 l2 HP).
Qed.

(** C9. The hand evaluator does not depend on the order of the cards: two
    hands that are permutations of one another evaluate to the same total
    and the same soft flag. *)
Theorem bestTotal_perm (hand1 hand2 : list string) :
  Permutation hand1 hand2 -> bestTotal hand1 = bestTotal hand2.
Proof.
  intros HP. unfold bestTotal.
  now rewrite (settle_perm _ _ HP), (aceCountOf_perm _ _ HP).
Qed.

Lemma bestTotal_perm_witness :
  bestTotal ["6"; "A"; "K"] = bestTotal ["K"; "6"; "A"].
Proof.
  apply bestTotal_perm.
  apply Permutation_sym, (Permutation_cons_app ["6"; "A"] [] "K").
  apply Permutation_refl.
Defined.

(** C10. The empty hand evaluates to total 0, not soft. *)
Theorem bestTotal_empty : bestTotal [] = {| total := Int 0; isSoft := false |}.
Proof. reflexivity. Qed.

Lemma fold_addCard_aces (ranks : list string) :
  forall t a,
    snd (fold_left addCard ranks (t, a)) = (a + aceCountOf ranks)%nat.
Proof.
  unfold aceCountOf.
  induction ranks as [| r ranks IH]; intros t a; cbn [fold_left filter].
  - simpl. lia.
  - rewrite addCard_split, IH. unfold aceBit.
    destruct (r =? "A")%string; simpl; lia.
Qed.

Lemma demote_le (aces : nat) :
  forall t, (snd (demote t aces) <= aces)%nat.
Proof.
  induction aces as [| a IH]; intros t; cbn [demote].
  - simpl. lia.
  - destruct (t >? Int 21)%num.
    + specialize (IH (t - Int 10)%num). lia.
    + simpl. lia.
Qed.

(** What the flag computed by [bestTotal] means: the total is at most 21 and
    fewer aces are left at 11 than the hand holds, that is, at least one ace
    has been demoted. *)
Lemma bestTotal_isSoft_demoted (hand : list string) :
  isSoft (bestTotal hand) = true <->
  (snd (settle hand) < aceCountOf hand)%nat /\
  (total (bestTotal hand) <=? Int 21)%num = true.
Proof.
  unfold bestTotal. destruct (settle hand) as [t a]; simpl.
  rewrite !andb_true_iff, !Nat.ltb_lt. intuition lia.
Qed.

(** C1. On the hand [A,6] the evaluator answers total 17 with [isSoft]
    false, although the ace is still counted as 11 and the total is below
    21, so that the specification's reading makes it a soft 17.  On [A,6,10]
    it answers total 17 with [isSoft] true although the ace has been
    demoted. *)
Theorem bestTotal_ace_six_not_soft :
  bestTotal ["A"; "6"] = {| total := Int 17; isSoft := false |} /\
  isSoft_spec ["A"; "6"] = true /\
  bestTotal ["A"; "6"; "10"] = {| total := Int 17; isSoft := true |} /\
  isSoft_spec ["A"; "6"; "10"] = false.
Proof. repeat split. Qed.

(** ** Rank utilities *)

Lemma includes_In (xs : list string) (r : string) :
  includes xs r = true <-> In r xs.
Proof.
  unfold includes. rewrite existsb_exists. split.
  - intros [x [Hin Heq]]. apply String.eqb_eq in Heq. now subst.
  - intros Hin. exists r. split; [assumption | apply String.eqb_refl].
Qed.

(** C4, as stated, fails: the rank ["X"] is not one of the thirteen symbols,
    the specification asks for [InvalidRankError] there, and [hiLoValue]
    returns the weight -1. *)
Lemma hiLoValue_unknown_rank_coerced :
  ~ In "X" RANKS /\
  countingWeight_spec "X" = inl InvalidRankError /\
  hiLoValue "X" = -1.
Proof.
  repeat split. intros H. apply includes_In in H. discriminate H.
Qed.

(** C4, amended. On the thirteen ranks [hiLoValue] is +1 for 2 to 6, 0 for
    7 to 9 and -1 for 10, J, Q, K and A, as the specification's weights say;
    on every other string it returns -1 and raises nothing. *)
Theorem hiLoValue_weights :
  (forall rank w, countingWeight_spec rank = inr w -> hiLoValue rank = w) /\
  map hiLoValue RANKS = [-1; 1; 1; 1; 1; 1; 0; 0; 0; -1; -1; -1; -1] /\
  (forall rank, ~ In rank RANKS -> hiLoValue rank = -1).
Proof.
  split; [| split].
  - intros rank w. unfold countingWeight_spec, hiLoValue.
    destruct (includes ["2"; "3"; "4"; "5"; "6"] rank);
      [intros [= <-]; reflexivity |].
    destruct (includes ["7"; "8"; "9"] rank);
      [intros [= <-]; reflexivity |].
    destruct (includes ["10"; "J"; "Q"; "K"; "A"] rank);
      [intros [= <-]; reflexivity | discriminate].
  - reflexivity.
  - intros rank Hout. unfold hiLoValue.
    destruct (includes ["2"; "3"; "4"; "5"; "6"] rank) eqn:Hlow.
    + exfalso. apply Hout. apply includes_In in Hlow. simpl in *. tauto.
    + destruct (includes ["7"; "8"; "9"] rank) eqn:Hmid; [| reflexivity].
      exfalso. apply Hout. apply includes_In in Hmid. simpl in *. tauto.
Qed.

Lemma hiLoValue_weights_witness :
  hiLoValue "5" = 1 /\ hiLoValue "x" = -1.
Proof.
  destruct hiLoValue_weights as [Hin [_ Hout]]. split.
  - apply (Hin "5" 1). reflexivity.
  - apply (Hout "x"). intros H. apply includes_In in H. discriminate H.
Defined.

Lemma settle_aces_le (hand : list string) :
  (snd (settle hand) <= aceCountOf hand)%nat.
Proof.
  unfold settle.
  pose proof (fold_addCard_aces hand (Int 0) O) as Hfold.
  destruct (fold_left addCard hand (Int 0, O)) as [t a]. simpl in Hfold.
  subst a. apply demote_le.
Qed.

(** With a single ace in the hand and a total of at most 21 the flag of
    [bestTotal] is the opposite of the specification's reading. *)
Lemma bestTotal_isSoft_single_ace (hand : list string) :
  aceCountOf hand = 1%nat ->
  (total (bestTotal hand) <=? Int 21)%num = true ->
  isSoft (bestTotal hand) = negb (isSoft_spec hand).
Proof.
  intros Hone. pose proof (settle_aces_le hand) as Hle.
  unfold bestTotal, isSoft_spec.
  destruct (settle hand) as [t a]; simpl in *. intros ->.
  rewrite Hone in *.
  destruct a as [| [| a]]; [reflexivity | reflexivity | lia].
Qed.

(** ** Baseline strategy *)

Lemma eqb_Int (a : num) (z : Z) : (a === Int z)%num = true <-> a = Int z.
Proof.
  destruct a as [| x]; simpl.
  - split; discriminate.
  - rewrite Z.eqb_eq. split; [now intros -> | now intros [= ->]].
Qed.

Ltac break_if :=
  match goal with
  | |- context [if ?c then _ else _] => destruct c eqn:?
  end.

Lemma lateSurrender_cases (opts : Opts) (hand : list string)
    (t : num) (s : bool) (up : num) :
  lateSurrender opts hand t s up = None \/
  lateSurrender opts hand t s up = Some Surrender.
Proof. unfold lateSurrender. repeat break_if; auto. Qed.

Lemma pairs_not_Surrender (opts : Opts) (hand : list string) (up : num) :
  pairs opts hand up <> Some Surrender.
Proof. unfold pairs. repeat break_if; discriminate. Qed.

Lemma softTotals_not_Surrender (opts : Opts) (t up : num) :
  softTotals opts t up <> Surrender.
Proof. unfold softTotals. repeat break_if; discriminate. Qed.

Lemma hardTotals_not_Surrender (opts : Opts) (t up : num) :
  hardTotals opts t up <> Surrender.
Proof. unfold hardTotals. repeat break_if; discriminate. Qed.

(** Surrender comes from the first block only. *)
Lemma baselineAction_Surrender (hand : list string) (dealerUp : string)
    (opts : Opts) :
  baselineAction hand dealerUp opts = Surrender <->
  lateSurrender opts hand (total (bestTotal hand)) (isSoft (bestTotal hand))
    (toDealerUpValue dealerUp) = Some Surrender.
Proof.
  unfold baselineAction. destruct (bestTotal hand) as [t s]; simpl.
  destruct (lateSurrender_cases opts hand t s (toDealerUpValue dealerUp))
    as [HN | HS]; rewrite ?HN, ?HS.
  - split; [| discriminate]. intros H.
    destruct (pairs opts hand (toDealerUpValue dealerUp)) as [a |] eqn:Hp.
    + subst a. now apply pairs_not_Surrender in Hp.
    + destruct s;
        [now apply softTotals_not_Surrender in H
        | now apply hardTotals_not_Surrender in H].
  - split; reflexivity.
Qed.

(** The surrender rule relative to the flag the evaluator computes: with
    [canSurrender] and two cards, [Surrender] is returned exactly when the
    flag is off and the total is 16 against 9, 10 or ace, or 15 against 10;
    the rule is tried before the pair table. *)
Lemma baselineAction_Surrender_by_flag (hand : list string)
    (dealerUp : string) (opts : Opts) :
  canSurrender opts = true -> List.length hand = 2%nat ->
  (baselineAction hand dealerUp opts = Surrender <->
   isSoft (bestTotal hand) = false /\
   ((total (bestTotal hand) = Int 16 /\
     (toDealerUpValue dealerUp = Int 9 \/ toDealerUpValue dealerUp = Int 10
      \/ toDealerUpValue dealerUp = Int 11)) \/
    (total (bestTotal hand) = Int 15 /\ toDealerUpValue dealerUp = Int 10))).
Proof.
  intros Hs Hl. rewrite baselineAction_Surrender.
  unfold lateSurrender. rewrite Hs, Hl. cbn [andb Nat.eqb].
  set (t := total (bestTotal hand)). set (up := toDealerUpValue dealerUp).
  destruct (isSoft (bestTotal hand)); cbn [negb andb].
  - split; [discriminate | intros [[=] _]].
  - rewrite <- !eqb_Int, <- !orb_true_iff, <- !andb_true_iff, <- orb_true_iff.
    destruct (t === 16)%num, (t === 15)%num, (up === 9)%num,
      (up === 10)%num, (up === 11)%num; cbn; intuition discriminate.
Qed.

(** C7. The hand [A,5] is a soft 16 in the specification's reading, yet
    with [canSurrender] the baseline answers [Surrender] against a ten, since
    the evaluator reports it with [isSoft] false (the defect of C1).  The
    claim's own example, [10,6] against 10, does give [Surrender], and a pair
    of eights against 10 is surrendered before the pair table is read. *)
Theorem baselineAction_surrenders_soft_16 :
  let opts := mkOpts true true true in
  isSoft_spec ["A"; "5"] = true /\
  bestTotal ["A"; "5"] = {| total := Int 16; isSoft := false |} /\
  baselineAction ["A"; "5"] "10" opts = Surrender /\
  baselineAction ["10"; "6"] "10" opts = Surrender /\
  baselineAction ["8"; "8"] "10" opts = Surrender.
Proof. repeat split. Qed.

Lemma pairs_no_Double (opts : Opts) (hand : list string) (up : num) :
  canDouble opts = false -> pairs opts hand up <> Some Double.
Proof.
  intros Hd. unfold pairs. rewrite Hd. cbn [andb].
  repeat break_if; discriminate.
Qed.

Lemma softTotals_no_Double (opts : Opts) (t up : num) :
  canDouble opts = false -> softTotals opts t up <> Double.
Proof.
  intros Hd. unfold softTotals. rewrite Hd. cbn [andb].
  repeat break_if; discriminate.
Qed.

Lemma hardTotals_Double_unflagged (opts : Opts) (t up : num) :
  canDouble opts = false ->
  (hardTotals opts t up = Double <-> t = Int 11 /\ (up === 11)%num = false).
Proof.
  intros Hd. unfold hardTotals. rewrite Hd. cbn [andb].
  destruct t as [| z]; cbn.
  - split; [discriminate | intros [[=] _]].
  - destruct (17 <=? z) eqn:H17; [split; [discriminate | intros [[= ->] _]; discriminate] |].
    destruct (z <=? 8) eqn:H8; [split; [discriminate | intros [[= ->] _]; discriminate] |].
    destruct (z =? 9) eqn:E9; [split; [discriminate | intros [[= ->] _]; discriminate] |].
    destruct (z =? 10) eqn:E10; [split; [discriminate | intros [[= ->] _]; discriminate] |].
    destruct (z =? 11) eqn:E11.
    + apply Z.eqb_eq in E11. subst z.
      destruct (up === 11)%num; split; try discriminate; try tauto.
      intros [_ [=]].
    + apply Z.eqb_neq in E11.
      split; [| intros [[= ->] _]; congruence].
      repeat break_if; discriminate.
Qed.

(** Without [canDouble] the baseline still answers [Double] in one place:
    a total of 11 that reaches the hard table against anything but an ace. *)
Lemma baselineAction_Double_unflagged (hand : list string)
    (dealerUp : string) (opts : Opts) :
  canDouble opts = false ->
  baselineAction hand dealerUp opts = Double ->
  isSoft (bestTotal hand) = false /\
  total (bestTotal hand) = Int 11 /\
  toDealerUpValue dealerUp <> Int 11.
Proof.
  intros Hd. unfold baselineAction.
  destruct (bestTotal hand) as [t s]; simpl.
  destruct (lateSurrender_cases opts hand t s (toDealerUpValue dealerUp))
    as [HN | HS]; rewrite ?HN, ?HS; [| discriminate].
  destruct (pairs opts hand (toDealerUpValue dealerUp)) as [a |] eqn:Hp.
  - intros ->. now apply pairs_no_Double in Hp.
  - destruct s.
    + intros H. now apply softTotals_no_Double in H.
    + intros H. apply (hardTotals_Double_unflagged _ _ _ Hd) in H.
      destruct H as [-> Hup]. repeat split.
      intros Heq. rewrite Heq in Hup. discriminate Hup.
Qed.

(** C2. A hard 11 without [canDouble] still gets [Double] against every
    upcard but the ace: the last line of the branch for 11 returns [Double]
    without reading the flag, while every other doubling branch (hard 9 and
    10 shown here) falls back to [Hit]. *)
Theorem baselineAction_hard_11_doubles_unflagged :
  let opts := mkOpts true false false in
  bestTotal ["2"; "3"; "6"] = {| total := Int 11; isSoft := false |} /\
  baselineAction ["2"; "3"; "6"] "6" opts = Double /\
  baselineAction ["2"; "3"; "6"] "A" opts = Hit /\
  baselineAction ["2"; "3"; "5"] "6" opts = Hit /\
  baselineAction ["2"; "3"; "4"] "6" opts = Hit.
Proof. repeat split. Qed.

(** ** Deviations *)

(** The chain of tests of [applyDeviations] is the table lookup on the
    evaluation [bestTotal] computes. *)
Lemma applyDeviations_table (base : Action) (hand : list string)
    (dealerUp : string) (tc : Z) (opts : Opts) :
  applyDeviations base hand dealerUp tc opts
  = resolveTable base (bestTotal hand) (toDealerUpValue dealerUp) tc opts.
Proof.
  unfold applyDeviations, resolveTable.
  destruct (bestTotal hand) as [t s].
  unfold indexPlays. cbn [find]. unfold fires.
  cbn [ipTotal ipUp ipThreshold ipOverride ipNeedsDouble ipNote
       implb andb total isSoft].
  repeat break_if; reflexivity.
Qed.

Lemma find_first {A : Type} (f : A -> bool) (l : list A) (p : A) :
  find f l = Some p ->
  exists l1 l2, l = (l1 ++ p :: l2)%list /\ f p = true /\
                (forall q, In q l1 -> f q = false).
Proof.
  induction l as [| x l IH]; simpl; [discriminate |].
  destruct (f x) eqn:Hx.
  - intros [= ->]. exists [], l. repeat split; [assumption | intros q []].
  - intros Hfind. destruct (IH Hfind) as [l1 [l2 [-> [Hp Hq]]]].
    exists (x :: l1), l2. repeat split; [assumption |].
    intros q [<- | Hin]; [assumption | now apply Hq].
Qed.

(** What a fired play guarantees, read off the table: the plays before it
    did not fire, the count has reached its threshold and its override is not
    the baseline. *)
Lemma applyDeviations_cases (base : Action) (hand : list string)
    (dealerUp : string) (tc : Z) (opts : Opts) :
  let f := fires base (bestTotal hand) (toDealerUpValue dealerUp) tc opts in
  (applyDeviations base hand dealerUp tc opts = mkDeviated base [] /\
   forall p, In p indexPlays -> f p = false) \/
  (exists before p after,
      indexPlays = (before ++ p :: after)%list /\
      (forall q, In q before -> f q = false) /\
      ipThreshold p <= tc /\ ipOverride p <> base /\
      applyDeviations base hand dealerUp tc opts
      = mkDeviated (ipOverride p) [ipNote p]).
Proof.
  intros f. rewrite applyDeviations_table.
  unfold resolveTable. fold f.
  destruct (find f indexPlays) as [p |] eqn:Hfind.
  - right. destruct (find_first _ _ _ Hfind) as [l1 [l2 [Heq [Hp Hq]]]].
    exists l1, p, l2. repeat split; try assumption.
    + unfold f, fires in Hp. rewrite !andb_true_iff in Hp.
      destruct Hp as [[_ Htc] _]. lia.
    + unfold f, fires in Hp. rewrite !andb_true_iff in Hp.
      destruct Hp as [_ Hne]. intros Heq'. rewrite Heq' in Hne.
      destruct base; discriminate Hne.
  - left. split; [reflexivity |].
    intros p Hin. now apply (find_none _ _ Hfind).
Qed.

(** C3, as stated, fails on pairs: a pair of sixes against a 3 has the
    baseline [Split], and at a true count of +1 the play "12 vs 3" turns it
    into [Stand] with a note. *)
Lemma applyDeviations_pair_of_sixes_deviates :
  let opts := mkOpts true true true in
  isPair ["6"; "6"] = true /\
  baselineAction ["6"; "6"] "3" opts = Split /\
  applyDeviations Split ["6"; "6"] "3" 1 opts
  = mkDeviated Stand ["Deviation: 12 vs 3 → Stand at TC ≥ +1"] /\
  applyDeviations Split ["6"; "6"] "3" 1 opts <> mkDeviated Split [].
Proof. repeat split. discriminate. Qed.

(** ** Count estimate *)

Lemma Qfloor_quot_nonneg (a : Z) (p : positive) :
  0 <= a -> Qfloor (a # p) = Z.quot a (Zpos p).
Proof.
  intros Ha. simpl. symmetry. apply Z.quot_div_nonneg; lia.
Qed.

Lemma Qceiling_quot_neg (a : Z) (p : positive) :
  a <= 0 -> Qceiling (a # p) = Z.quot a (Zpos p).
Proof.
  intros Ha. unfold Qceiling. simpl.
  rewrite <- (Z.opp_involutive a) at 2.
  rewrite Z.quot_opp_l by lia.
  rewrite Z.quot_div_nonneg by lia. reflexivity.
Qed.



(** * Further properties of the code *)

(** ** Running count *)

Lemma runningCount_acc (seen : list string) :
  forall a, fold_left (fun s r => s + hiLoValue r) seen a
            = a + runningCount seen.
Proof.
  unfold runningCount.
  induction seen as [| r seen IH]; intros a; cbn [fold_left].
  - lia.
  - rewrite (IH (a + hiLoValue r)), (IH (0 + hiLoValue r)). lia.
Qed.

Lemma runningCount_cons (r : string) (seen : list string) :
  runningCount (r :: seen) = hiLoValue r + runningCount seen.
Proof.
  unfold runningCount at 1. cbn [fold_left].
  rewrite runningCount_acc. lia.
Qed.

Lemma hiLoValue_range (r : string) : -1 <= hiLoValue r <= 1.
Proof. unfold hiLoValue. repeat break_if; lia. Qed.

Lemma runningCount_app_aux (seen more : list string) :
  runningCount (seen ++ more) = runningCount seen + runningCount more.
Proof.
  induction seen as [| r seen IH]; cbn [app].
  - reflexivity.
  - rewrite !runningCount_cons, IH. lia.
Qed.

Lemma runningCount_perm_aux (l1 l2 : list string) :
  Permutation l1 l2 -> runningCount l1 = runningCount l2.
Proof.
  induction 1 as [| x l l' _ IH | x y l | l l' l'' _ IH1 _ IH2].
  - reflexivity.
  - rewrite !runningCount_cons, IH. reflexivity.
  - rewrite !runningCount_cons. lia.
  - now rewrite IH1.
Qed.

(** X1. The running count is additive over concatenation: seeing further
    cards adds their count to the count so far; one more card adds its Hi-Lo
    weight. *)
Theorem runningCount_app (seen more : list string) (r : string) :
  runningCount (seen ++ more) = runningCount seen + runningCount more /\
  runningCount (seen ++ [r]) = runningCount seen + hiLoValue r.
Proof.
  split; [apply runningCount_app_aux |].
  rewrite runningCount_app_aux, runningCount_cons.
  change (runningCount []) with 0. lia.
Qed.

Lemma runningCount_range (seen : list string) :
  - Z.of_nat (List.length seen) <= runningCount seen
  <= Z.of_nat (List.length seen).
Proof.
  induction seen as [| r seen IH].
  - cbn. lia.
  - rewrite runningCount_cons. pose proof (hiLoValue_range r).
    cbn [List.length]. lia.
Qed.

(** X2. The running count never exceeds the number of cards seen, in either
    direction, whatever strings the cards are. *)
Theorem runningCount_bounded (seen : list string) :
  - Z.of_nat (List.length seen) <= runningCount seen
  <= Z.of_nat (List.length seen).
Proof. apply runningCount_range. Qed.

(** X3. The Hi-Lo weights are balanced: once the cards seen are, in any
    order, exactly the cards of [n] complete decks, the running count is 0. *)
Theorem runningCount_shoe_balanced (n : nat) (seen : list string) :
  Permutation seen (shoe n) -> runningCount seen = 0.
Proof.
  intros HP. rewrite (runningCount_perm_aux _ _ HP). clear HP.
  unfold shoe. induction n as [| n IH]; cbn [repeat List.concat].
  - reflexivity.
  - rewrite runningCount_app_aux, IH. reflexivity.
Qed.

Lemma runningCount_shoe_balanced_witness :
  runningCount (rev (shoe 2)) = 0.
Proof.
  apply (runningCount_shoe_balanced 2).
  apply Permutation_sym, Permutation_rev.
Defined.

(** X4. The running count does not depend on the order in which the cards
    were seen. *)
Theorem runningCount_perm (seen1 seen2 : list string) :
  Permutation seen1 seen2 -> runningCount seen1 = runningCount seen2.
Proof. apply runningCount_perm_aux. Qed.

Lemma runningCount_perm_witness :
  runningCount ["K"; "5"; "2"] = runningCount ["2"; "5"; "K"].
Proof.
  apply runningCount_perm.
  change ["2"; "5"; "K"] with (rev ["K"; "5"; "2"]).
  apply Permutation_rev.
Defined.

(** ** Deck estimate and true count *)

Lemma clamp_lower (n lo hi : Q) : (lo <= clamp n lo hi)%Q.
Proof. apply Q.le_max_l. Qed.

Lemma clamp_upper (n lo hi : Q) :
  (lo <= hi)%Q -> (clamp n lo hi <= hi)%Q.
Proof.
  intros Hlh. apply Q.max_lub; [exact Hlh | apply Q.le_min_l].
Qed.

Lemma clamp_inside (n lo hi : Q) :
  (lo <= n)%Q -> (n <= hi)%Q -> (clamp n lo hi == n)%Q.
Proof.
  intros Hlo Hhi. unfold clamp.
  assert (Hmin : (Qmin hi n == n)%Q) by (apply Q.min_r; exact Hhi).
  rewrite Q.max_r; [exact Hmin | rewrite Hmin; exact Hlo].
Qed.

Lemma clamp_lo_wins (n lo hi : Q) :
  (hi < lo)%Q -> (clamp n lo hi == lo)%Q.
Proof.
  intros Hlt. apply Q.max_l.
  eapply Qle_trans; [apply Q.le_min_l | apply Qlt_le_weak, Hlt].
Qed.

(** X5. [clamp n lo hi] is never below [lo]; with [lo <= hi] it is never
    above [hi] and leaves a value of the interval unchanged; with [hi < lo]
    the lower bound wins whatever [n] is. *)
Theorem clamp_cases (n lo hi : Q) :
  (lo <= clamp n lo hi)%Q /\
  ((lo <= hi)%Q -> (clamp n lo hi <= hi)%Q) /\
  ((lo <= n)%Q -> (n <= hi)%Q -> (clamp n lo hi == n)%Q) /\
  ((hi < lo)%Q -> (clamp n lo hi == lo)%Q).
Proof.
  split; [apply clamp_lower |]. split; [apply clamp_upper |].
  split; [apply clamp_inside | apply clamp_lo_wins].
Qed.

Lemma clamp_cases_witness :
  (clamp (3 # 2) (1 # 4) 2 == 3 # 2)%Q /\ (clamp 7 (1 # 4) 0 == 1 # 4)%Q.
Proof.
  split.
  - apply (clamp_cases (3 # 2) (1 # 4) 2); unfold Qle; simpl; lia.
  - apply (clamp_cases 7 (1 # 4) 0). reflexivity.
Defined.




(** X7. Before any card is seen the estimate is the configured number of
    decks, for one deck or more; with no deck or a negative number of decks
    configured the estimate is the floor 1/4 whatever has been seen. *)
Theorem decksRemaining_fresh_and_degenerate (decks : Z) :
  (1 <= decks -> (decksRemaining decks [] == inject_Z decks)%Q) /\
  (decks <= 0 -> forall seen, (decksRemaining decks seen == 1 # 4)%Q).
Proof.
  split.
  - intros Hd. unfold decksRemaining.
    rewrite clamp_inside.
    + unfold totalCards, Qdiv, Qeq. simpl. lia.
    + unfold totalCards, Qdiv, Qle. simpl. lia.
    + unfold totalCards, Qdiv, Qle. simpl. lia.
  - intros Hd seen. unfold decksRemaining.
    apply clamp_lo_wins. unfold Qlt. simpl. lia.
Qed.

Lemma decksRemaining_fresh_witness :
  (decksRemaining 6 [] == 6)%Q /\ (decksRemaining 0 ["K"] == 1 # 4)%Q.
Proof.
  destruct (decksRemaining_fresh_and_degenerate 6) as [H6 _].
  destruct (decksRemaining_fresh_and_degenerate 0) as [_ H0].
  split; [apply H6; lia | apply H0; lia].
Defined.









(** ** Hand evaluation, continued *)

Lemma fold_addCard_split (ranks : list string) :
  forall t a,
    fold_left addCard ranks (t, a)
    = (fold_left (fun t r => (t + cardValue r)%num) ranks t,
       (a + aceCountOf ranks)%nat).
Proof.
  unfold aceCountOf.
  induction ranks as [| r ranks IH]; intros t a; cbn [fold_left filter].
  - f_equal. simpl. lia.
  - rewrite addCard_split, IH. f_equal. unfold aceBit.
    destruct (r =? "A")%string; simpl; lia.
Qed.

Lemma settle_raw (hand : list string) :
  settle hand = demote (rawTotal hand) (aceCountOf hand).
Proof.
  unfold settle, rawTotal. rewrite fold_addCard_split. reflexivity.
Qed.

Lemma demote_NaN (aces : nat) : demote NaN aces = (NaN, aces).
Proof. destruct aces; reflexivity. Qed.

(** The exit state of the [while] loop, for an integer total. *)
Lemma demote_post (aces : nat) :
  forall z, exists k : nat,
    (k <= aces)%nat /\
    demote (Int z) aces = (Int (z - 10 * Z.of_nat k), (aces - k)%nat) /\
    (z - 10 * Z.of_nat k <= 21 \/ k = aces) /\
    ((0 < k)%nat -> 11 < z - 10 * Z.of_nat k).
Proof.
  induction aces as [| a IH]; intros z.
  - exists O. cbn [demote].
    split; [lia |]. split; [| split; [right; reflexivity | lia]].
    f_equal. f_equal. lia.
  - cbn [demote]. unfold JS.gtb, JS.ltb.
    destruct (21 <? z) eqn:Hz.
    + apply Z.ltb_lt in Hz.
      destruct (IH (z - 10)) as [k [Hk [Hd [Hstop Hmin]]]].
      exists (S k). cbn [JS.sub]. rewrite Hd.
      replace (z - 10 - 10 * Z.of_nat k) with (z - 10 * Z.of_nat (S k))
        by lia.
      split; [lia |]. split; [reflexivity |]. split; [lia |].
      intros _. destruct k as [| k']; [lia |].
      assert (H := Hmin ltac:(lia)). lia.
    + apply Z.ltb_ge in Hz. exists O.
      split; [lia |]. split; [| split; [left |]; lia].
      f_equal. f_equal. lia.
Qed.

(** X11. The total is the best one: starting from the sum with every ace at
    11, the evaluator takes 10 off for [k] aces, where [k] is at most the
    number of aces, the result is at most 21 unless every ace has been
    counted as 1, and no ace is counted as 1 needlessly (after a demotion the
    total is above 11, so that undoing it would exceed 21). *)
Theorem bestTotal_best (hand : list string) (z : Z) :
  rawTotal hand = Int z ->
  exists k : nat,
    (k <= aceCountOf hand)%nat /\
    total (bestTotal hand) = Int (z - 10 * Z.of_nat k) /\
    (z - 10 * Z.of_nat k <= 21 \/ k = aceCountOf hand) /\
    ((0 < k)%nat -> 11 < z - 10 * Z.of_nat k).
Proof.
  intros Hraw. unfold bestTotal. rewrite settle_raw, Hraw.
  destruct (demote_post (aceCountOf hand) z) as [k [Hk [Hd [Hstop Hmin]]]].
  exists k. rewrite Hd. cbn [total]. auto.
Qed.

Lemma bestTotal_best_witness :
  exists k : nat,
    (k <= aceCountOf ["A"; "A"; "9"; "K"])%nat /\
    total (bestTotal ["A"; "A"; "9"; "K"]) = Int (41 - 10 * Z.of_nat k) /\
    (41 - 10 * Z.of_nat k <= 21 \/ k = aceCountOf ["A"; "A"; "9"; "K"]) /\
    ((0 < k)%nat -> 11 < 41 - 10 * Z.of_nat k).
Proof. apply (bestTotal_best ["A"; "A"; "9"; "K"] 41). reflexivity. Defined.

Lemma bestTotal_aceless (hand : list string) :
  aceCountOf hand = O ->
  bestTotal hand = {| total := rawTotal hand; isSoft := false |}.
Proof.
  intros H0. unfold bestTotal. rewrite settle_raw, H0. reflexivity.
Qed.

(** X12. A hand without an ace is never soft and its total is the plain sum
    of its card values. *)
Theorem bestTotal_no_ace (hand : list string) :
  aceCountOf hand = O ->
  bestTotal hand = {| total := rawTotal hand; isSoft := false |}.
Proof. apply bestTotal_aceless. Qed.

Lemma bestTotal_no_ace_witness :
  bestTotal ["K"; "7"; "5"] = {| total := Int 22; isSoft := false |}.
Proof. apply (bestTotal_no_ace ["K"; "7"; "5"]). reflexivity. Defined.

(** X13. A single card evaluates to its dealer up value, for every string:
    11 for the ace, 10 for a ten-valued rank, the parsed numeral or [NaN]
    otherwise. *)
Theorem bestTotal_single_card (r : string) :
  total (bestTotal [r]) = toDealerUpValue r.
Proof.
  unfold bestTotal. rewrite settle_raw.
  unfold rawTotal, aceCountOf, toDealerUpValue. cbn [fold_left filter].
  unfold cardValue.
  destruct (r =? "A")%string; [reflexivity |].
  cbn [List.length demote total].
  destruct (isTenValue r); [reflexivity |].
  destruct (parseInt r); reflexivity.
Qed.

Lemma rawTotal_acc_NaN (ranks : list string) :
  fold_left (fun t r => (t + cardValue r)%num) ranks NaN = NaN.
Proof. induction ranks as [| r ranks IH]; [reflexivity | exact IH]. Qed.

Lemma rawTotal_unreadable (ranks : list string) (r : string) :
  In r ranks -> cardValue r = NaN ->
  forall t, fold_left (fun t r => (t + cardValue r)%num) ranks t = NaN.
Proof.
  intros Hin Hnan.
  induction ranks as [| x ranks IH]; [destruct Hin |].
  intros t. cbn [fold_left]. destruct Hin as [-> | Hin].
  - rewrite Hnan. destruct t; apply rawTotal_acc_NaN.
  - apply IH, Hin.
Qed.

Lemma bestTotal_unreadable (hand : list string) (r : string) :
  In r hand -> cardValue r = NaN ->
  bestTotal hand = {| total := NaN; isSoft := false |}.
Proof.
  intros Hin Hnan. unfold bestTotal. rewrite settle_raw.
  unfold rawTotal. rewrite (rawTotal_unreadable hand r Hin Hnan).
  rewrite demote_NaN. cbn. now rewrite andb_false_r.
Qed.

(** ** Pairs *)

Lemma isTenValue_cardValue (r : string) :
  isTenValue r = true -> cardValue r = Int 10.
Proof.
  intros Hten. unfold cardValue. rewrite Hten.
  destruct (String.eqb_spec r "A") as [-> |]; [discriminate Hten | reflexivity].
Qed.

Lemma isPair_inv (hand : list string) :
  isPair hand = true ->
  exists a b, hand = [a; b] /\
    ((isTenValue a = true /\ isTenValue b = true) \/ a = b).
Proof.
  destruct hand as [| a [| b [| c rest]]]; try discriminate.
  cbn [isPair]. intros H. exists a, b. split; [reflexivity |].
  destruct (isTenValue a), (isTenValue b); cbn in H;
    try (right; now apply String.eqb_eq); left; split; reflexivity.
Qed.

(** X14. A pair has exactly two cards of equal value, and neither being a
    pair nor the pair key depends on the order of the two cards. *)
Theorem isPair_symmetric (hand : list string) :
  isPair hand = true ->
  List.length hand = 2%nat /\
  isPair (rev hand) = true /\
  pairKey (rev hand) = pairKey hand /\
  (forall r1 r2, In r1 hand -> In r2 hand -> cardValue r1 = cardValue r2).
Proof.
  intros HP. destruct (isPair_inv hand HP) as [a [b [-> Hcase]]].
  cbn [rev app List.length isPair pairKey].
  destruct Hcase as [[Ha Hb] | <-].
  - rewrite Ha, Hb. cbn. repeat split; try reflexivity.
    intros r1 r2 [<- | [<- | []]] [<- | [<- | []]];
      now rewrite !isTenValue_cardValue.
  - rewrite String.eqb_refl.
    destruct (isTenValue a); cbn; repeat split; try reflexivity;
      intros r1 r2 [<- | [<- | []]] [<- | [<- | []]]; reflexivity.
Qed.

Lemma isPair_symmetric_witness :
  isPair (rev ["K"; "10"]) = true /\
  pairKey (rev ["K"; "10"]) = pairKey ["K"; "10"].
Proof.
  destruct (isPair_symmetric ["K"; "10"] eq_refl) as [_ [H1 [H2 _]]].
  split; assumption.
Defined.

Lemma pairs_valid_some (opts : Opts) (hand : list string) (up : num) :
  Forall (fun r => In r RANKS) hand ->
  isPair hand = true -> canSplit opts = true ->
  pairs opts hand up <> None.
Proof.
  intros Hvalid HP Hsplit. unfold pairs. rewrite Hsplit, HP. cbn [andb].
  destruct (isPair_inv hand HP) as [a [b [-> Hcase]]].
  destruct Hcase as [[Ha Hb] | <-].
  - cbn [pairKey]. rewrite Ha, Hb. cbn. discriminate.
  - apply Forall_inv in Hvalid. unfold RANKS in Hvalid. cbn [In] in Hvalid.
    repeat (destruct Hvalid as [<- | Hvalid];
            [cbn; repeat break_if; discriminate |]).
    destruct Hvalid.
Qed.

(** X15. With [canSplit], a pair of cards from the thirteen ranks is always
    decided by the surrender rule or by the pair table: the table has an
    entry for every such pair, so the soft and hard tables are not reached. *)
Theorem baselineAction_valid_pair (hand : list string) (dealerUp : string)
    (opts : Opts) :
  Forall (fun r => In r RANKS) hand ->
  isPair hand = true -> canSplit opts = true ->
  baselineAction hand dealerUp opts = Surrender \/
  pairs opts hand (toDealerUpValue dealerUp)
  = Some (baselineAction hand dealerUp opts).
Proof.
  intros Hvalid HP Hsplit.
  pose proof (pairs_valid_some opts hand (toDealerUpValue dealerUp)
                Hvalid HP Hsplit) as Hsome.
  unfold baselineAction. destruct (bestTotal hand) as [t s].
  destruct (lateSurrender_cases opts hand t s (toDealerUpValue dealerUp))
    as [HN | HS]; rewrite ?HN, ?HS; [| left; reflexivity].
  destruct (pairs opts hand (toDealerUpValue dealerUp)) as [a |];
    [right; reflexivity | contradiction].
Qed.

Lemma baselineAction_valid_pair_witness :
  let opts := mkOpts true true true in
  baselineAction ["9"; "9"] "7" opts = Surrender \/
  pairs opts ["9"; "9"] (toDealerUpValue "7")
  = Some (baselineAction ["9"; "9"] "7" opts).
Proof.
  apply baselineAction_valid_pair; [| reflexivity | reflexivity].
  repeat constructor; unfold RANKS; simpl; tauto.
Defined.

(** ** Baseline strategy, continued *)

Lemma pairs_Split_inv (opts : Opts) (hand : list string) (up : num) (a : Action) :
  pairs opts hand up = Some a ->
  canSplit opts = true /\ isPair hand = true.
Proof.
  unfold pairs.
  destruct (canSplit opts); [| discriminate].
  destruct (isPair hand); [| discriminate]. auto.
Qed.

Lemma softTotals_not_Split (opts : Opts) (t up : num) :
  softTotals opts t up <> Split.
Proof. unfold softTotals. repeat break_if; discriminate. Qed.

Lemma hardTotals_not_Split (opts : Opts) (t up : num) :
  hardTotals opts t up <> Split.
Proof. unfold hardTotals. repeat break_if; discriminate. Qed.

Lemma baselineAction_gated_aux (hand : list string) (dealerUp : string)
    (opts : Opts) :
  (baselineAction hand dealerUp opts = Split ->
   canSplit opts = true /\ isPair hand = true) /\
  (baselineAction hand dealerUp opts = Surrender ->
   canSurrender opts = true /\ List.length hand = 2%nat).
Proof.
  split.
  - unfold baselineAction. destruct (bestTotal hand) as [t s].
    destruct (lateSurrender_cases opts hand t s (toDealerUpValue dealerUp))
      as [HN | HS]; rewrite ?HN, ?HS; [| discriminate].
    destruct (pairs opts hand (toDealerUpValue dealerUp)) as [a |] eqn:Hp.
    + intros _. exact (pairs_Split_inv _ _ _ _ Hp).
    + destruct s; intros H;
        [now apply softTotals_not_Split in H
        | now apply hardTotals_not_Split in H].
  - rewrite baselineAction_Surrender. unfold lateSurrender.
    destruct (canSurrender opts); [| discriminate].
    destruct (Nat.eqb_spec (List.length hand) 2); [| discriminate]. auto.
Qed.

(** X16. The baseline answers [Split] only with [canSplit] on a pair, and
    [Surrender] only with [canSurrender] on a two-card hand. *)
Theorem baselineAction_gated (hand : list string) (dealerUp : string)
    (opts : Opts) :
  (baselineAction hand dealerUp opts = Split ->
   canSplit opts = true /\ isPair hand = true) /\
  (baselineAction hand dealerUp opts = Surrender ->
   canSurrender opts = true /\ List.length hand = 2%nat).
Proof. apply baselineAction_gated_aux. Qed.

Lemma baselineAction_gated_witness :
  canSplit (mkOpts true false false) = true /\ isPair ["8"; "8"] = true.
Proof.
  apply (baselineAction_gated ["8"; "8"] "5" (mkOpts true false false)).
  reflexivity.
Defined.

(** X17. A hand that reaches the hard table (no pair rule applies and the
    evaluator's flag is off) stands on 17 or more and hits 8 or less,
    whatever the upcard and the flags. *)
Theorem baselineAction_hard_extremes (hand : list string)
    (dealerUp : string) (opts : Opts) (z : Z) :
  canSplit opts && isPair hand = false ->
  bestTotal hand = {| total := Int z; isSoft := false |} ->
  (17 <= z -> baselineAction hand dealerUp opts = Stand) /\
  (z <= 8 -> baselineAction hand dealerUp opts = Hit).
Proof.
  intros Hnp Hbt. unfold baselineAction. rewrite Hbt.
  unfold pairs. rewrite Hnp.
  unfold lateSurrender, hardTotals. cbn [negb andb JS.eqb JS.geb JS.leb].
  split; intros Hz.
  - replace (z =? 16) with false by (symmetry; apply Z.eqb_neq; lia).
    replace (z =? 15) with false by (symmetry; apply Z.eqb_neq; lia).
    replace (17 <=? z) with true by (symmetry; apply Z.leb_le; lia).
    cbn. destruct (canSurrender opts && (List.length hand =? 2)%nat);
      reflexivity.
  - replace (z =? 16) with false by (symmetry; apply Z.eqb_neq; lia).
    replace (z =? 15) with false by (symmetry; apply Z.eqb_neq; lia).
    replace (17 <=? z) with false by (symmetry; apply Z.leb_gt; lia).
    replace (z <=? 8) with true by (symmetry; apply Z.leb_le; lia).
    cbn. destruct (canSurrender opts && (List.length hand =? 2)%nat);
      reflexivity.
Qed.

Lemma baselineAction_hard_extremes_witness :
  baselineAction ["K"; "5"; "3"] "A" (mkOpts true false false) = Stand /\
  baselineAction ["2"; "3"; "3"] "6" (mkOpts true false false) = Hit.
Proof.
  split.
  - apply (baselineAction_hard_extremes ["K"; "5"; "3"] "A" _ 18);
      [reflexivity | reflexivity | lia].
  - apply (baselineAction_hard_extremes ["2"; "3"; "3"] "6" _ 8);
      [reflexivity | reflexivity | lia].
Defined.

Lemma isTenValue_not_ace (r : string) :
  isTenValue r = true -> (r =? "A")%string = false.
Proof.
  intros Hten. destruct (String.eqb_spec r "A") as [-> |];
    [discriminate Hten | reflexivity].
Qed.

Lemma bestTotal_two_tens (a b : string) :
  isTenValue a = true -> isTenValue b = true ->
  bestTotal [a; b] = {| total := Int 20; isSoft := false |}.
Proof.
  intros Ha Hb.
  assert (H0 : aceCountOf [a; b] = O).
  { unfold aceCountOf. cbn [filter].
    now rewrite (isTenValue_not_ace a Ha), (isTenValue_not_ace b Hb). }
  rewrite (bestTotal_aceless _ H0). unfold rawTotal. cbn [fold_left].
  now rewrite (isTenValue_cardValue a Ha), (isTenValue_cardValue b Hb).
Qed.

(** X18. Two ten-valued cards, of equal rank or not, always get [Stand]:
    as a pair of tens when splitting is allowed, as a hard 20 otherwise. *)
Theorem baselineAction_two_tens (a b dealerUp : string) (opts : Opts) :
  isTenValue a = true -> isTenValue b = true ->
  baselineAction [a; b] dealerUp opts = Stand.
Proof.
  intros Ha Hb. unfold baselineAction.
  rewrite (bestTotal_two_tens a b Ha Hb).
  unfold lateSurrender, pairs. cbn [isPair pairKey]. rewrite Ha, Hb.
  cbn. destruct (canSurrender opts), (canSplit opts); reflexivity.
Qed.

Lemma baselineAction_two_tens_witness :
  baselineAction ["K"; "10"] "A" (mkOpts false true true) = Stand.
Proof. apply baselineAction_two_tens; reflexivity. Defined.

Lemma unreadable_not_key (r k : string) :
  cardValue r = NaN -> cardValue k <> NaN -> (r =? k)%string = false.
Proof.
  intros Hr Hk. destruct (String.eqb_spec r k) as [-> |];
    [contradiction | reflexivity].
Qed.

Lemma pairs_unreadable (opts : Opts) (hand : list string) (up : num)
    (r : string) :
  In r hand -> cardValue r = NaN -> pairs opts hand up = None.
Proof.
  intros Hin Hnan. unfold pairs.
  destruct (canSplit opts); [| reflexivity].
  destruct (isPair hand) eqn:HP; [| reflexivity]. cbn [andb].
  destruct (isPair_inv hand HP) as [a [b [-> Hcase]]].
  assert (Hab : a = b /\ a = r).
  { destruct Hcase as [[Ha Hb] | <-].
    - destruct Hin as [<- | [<- | []]];
        [rewrite (isTenValue_cardValue _ Ha) in Hnan
        | rewrite (isTenValue_cardValue _ Hb) in Hnan]; discriminate.
    - destruct Hin as [<- | [<- | []]]; auto. }
  destruct Hab as [<- ->]. cbn [pairKey].
  assert (Hten : isTenValue r = false).
  { destruct (isTenValue r) eqn:E; [| reflexivity].
    rewrite (isTenValue_cardValue _ E) in Hnan. discriminate. }
  rewrite Hten. cbn [andb keyIs].
  rewrite !(unreadable_not_key r _ Hnan) by (cbv; discriminate).
  reflexivity.
Qed.

(** X19. A hand holding a card whose value cannot be read (neither an ace,
    nor ten-valued, nor a numeral) has total [NaN] and is not soft; the
    baseline then answers [Hit] and no deviation applies, whatever the
    upcard, the count and the flags. *)
Theorem unreadable_card_hits (hand : list string) (r dealerUp : string)
    (base : Action) (tc : Z) (opts : Opts) :
  In r hand -> cardValue r = NaN ->
  bestTotal hand = {| total := NaN; isSoft := false |} /\
  baselineAction hand dealerUp opts = Hit /\
  applyDeviations base hand dealerUp tc opts = mkDeviated base [].
Proof.
  intros Hin Hnan.
  pose proof (bestTotal_unreadable hand r Hin Hnan) as Hbt.
  split; [exact Hbt |]. split.
  - unfold baselineAction. rewrite Hbt.
    rewrite (pairs_unreadable opts hand _ r Hin Hnan).
    unfold lateSurrender. cbn.
    destruct (canSurrender opts && (List.length hand =? 2)%nat); reflexivity.
  - unfold applyDeviations. rewrite Hbt. cbn.
    destruct (canDouble opts); reflexivity.
Qed.

Lemma unreadable_card_hits_witness :
  baselineAction ["joker"; "joker"] "6" (mkOpts true true true) = Hit.
Proof.
  apply (unreadable_card_hits ["joker"; "joker"] "joker" "6" Hit 0);
    [left; reflexivity | reflexivity].
Defined.

(** ** Deviations, continued *)

Lemma Action_eqb_eq (a b : Action) : Action_eqb a b = true <-> a = b.
Proof. destruct a, b; cbn; split; congruence. Qed.

Lemma fires_inv (base : Action) (v : HandValue) (up : num) (tc : Z)
    (opts : Opts) (p : IndexPlay) :
  fires base v up tc opts p = true ->
  isSoft v = false /\ total v = Int (ipTotal p) /\ up = Int (ipUp p) /\
  ipThreshold p <= tc /\ ipOverride p <> base /\
  (ipNeedsDouble p = true -> canDouble opts = true).
Proof.
  unfold fires. rewrite !andb_true_iff, !negb_true_iff, !eqb_Int.
  intros [[[[[Hd Hs] Ht] Hu] Hc] Hb].
  repeat split; try assumption.
  - lia.
  - intros Heq. rewrite <- Heq in Hb.
    assert (Action_eqb base base = true) by now apply Action_eqb_eq.
    congruence.
  - intros Hn. now rewrite Hn in Hd.
Qed.

(** No two plays of the table share a total and an upcard. *)
Lemma indexPlays_key_unique (p q : IndexPlay) :
  In p indexPlays -> In q indexPlays ->
  ipTotal p = ipTotal q -> ipUp p = ipUp q -> p = q.
Proof.
  unfold indexPlays. cbn [In]. intros Hp Hq.
  repeat (destruct Hp as [<- | Hp]);
    try (destruct Hp);
    repeat (destruct Hq as [<- | Hq]);
    try (destruct Hq); cbn; intros; congruence.
Qed.

Lemma find_unique {A : Type} (f : A -> bool) (l : list A) (p : A) :
  In p l -> f p = true ->
  (forall q, In q l -> f q = true -> q = p) ->
  find f l = Some p.
Proof.
  intros Hin Hp Huniq.
  destruct (find f l) as [q |] eqn:Hfind.
  - apply find_some in Hfind. destruct Hfind as [Hq Hfq].
    now rewrite (Huniq q Hq Hfq).
  - now rewrite (find_none _ _ Hfind p Hin) in Hp.
Qed.

(** The possible outcomes of [applyDeviations], with the totals at which a
    play can fire. *)
Lemma applyDeviations_outcome_aux (base : Action) (hand : list string)
    (dealerUp : string) (tc : Z) (opts : Opts) :
  let r := applyDeviations base hand dealerUp tc opts in
  let t := total (bestTotal hand) in
  r = mkDeviated base [] \/
  (action r = Stand /\ base <> Stand /\ List.length (notes r) = 1%nat /\
   isSoft (bestTotal hand) = false /\
   (t = Int 16 \/ t = Int 15 \/ t = Int 12)) \/
  (action r = Double /\ base <> Double /\ List.length (notes r) = 1%nat /\
   isSoft (bestTotal hand) = false /\ canDouble opts = true /\
   (t = Int 10 \/ t = Int 11)).
Proof.
  intros r t. unfold r. rewrite applyDeviations_table.
  unfold resolveTable.
  destruct (find _ indexPlays) as [p |] eqn:Hfind; [| left; reflexivity].
  right. apply find_some in Hfind. destruct Hfind as [Hin Hf].
  apply fires_inv in Hf. destruct Hf as [Hs [Ht [_ [_ [Hb Hd]]]]].
  fold t in Ht. cbn [action notes List.length].
  unfold indexPlays in Hin. cbn [In] in Hin.
  repeat (destruct Hin as [<- | Hin];
          [cbn in *;
           first [ left; repeat split; auto; tauto
                 | right; repeat split; auto; tauto ] |]).
  destruct Hin.
Qed.

(** X20. [applyDeviations] either returns the baseline with no note, or
    replaces it by a different action with exactly one note: by [Stand] on a
    hand evaluated not soft with total 16, 15 or 12, or by [Double] on a
    hand evaluated not soft with total 10 or 11 and only with [canDouble].
    It never introduces [Hit], [Split] or [Surrender], and the notes are
    empty exactly when the action is the baseline. *)
Theorem applyDeviations_outcome (base : Action) (hand : list string)
    (dealerUp : string) (tc : Z) (opts : Opts) :
  let r := applyDeviations base hand dealerUp tc opts in
  let t := total (bestTotal hand) in
  (r = mkDeviated base [] \/
   (action r = Stand /\ base <> Stand /\ List.length (notes r) = 1%nat /\
    isSoft (bestTotal hand) = false /\
    (t = Int 16 \/ t = Int 15 \/ t = Int 12)) \/
   (action r = Double /\ base <> Double /\ List.length (notes r) = 1%nat /\
    isSoft (bestTotal hand) = false /\ canDouble opts = true /\
    (t = Int 10 \/ t = Int 11))) /\
  (notes r = [] <-> action r = base).
Proof.
  intros r t.
  pose proof (applyDeviations_outcome_aux base hand dealerUp tc opts) as H.
  cbv zeta in H. fold r t in H. split; [exact H |].
  destruct H as [-> | [[Ha [Hb [Hl _]]] | [Ha [Hb [Hl _]]]]].
  - cbn. tauto.
  - split; intros H.
    + rewrite H in Hl. discriminate.
    + congruence.
  - split; intros H.
    + rewrite H in Hl. discriminate.
    + congruence.
Qed.

(** X21. Deviating is idempotent on the action: feeding the deviated action
    back as the baseline, with the same hand, upcard, count and flags,
    changes nothing more. *)
Theorem applyDeviations_idempotent (base : Action) (hand : list string)
    (dealerUp : string) (tc : Z) (opts : Opts) :
  let r := applyDeviations base hand dealerUp tc opts in
  applyDeviations (action r) hand dealerUp tc opts = mkDeviated (action r) [].
Proof.
  intros r.
  assert (Hr : r = resolveTable base (bestTotal hand)
                     (toDealerUpValue dealerUp) tc opts)
    by apply applyDeviations_table.
  rewrite applyDeviations_table. unfold resolveTable in *.
  destruct (find (fires base _ _ tc opts) indexPlays) as [p |] eqn:Hfind.
  - rewrite Hr. cbn [action].
    apply find_some in Hfind. destruct Hfind as [Hin Hf].
    apply fires_inv in Hf. destruct Hf as [_ [Ht [Hu _]]].
    destruct (find (fires (ipOverride p) _ _ tc opts) indexPlays)
      as [q |] eqn:Hfind2; [| reflexivity].
    apply find_some in Hfind2. destruct Hfind2 as [Hinq Hfq].
    apply fires_inv in Hfq. destruct Hfq as [_ [Htq [Huq [_ [Hne _]]]]].
    exfalso. apply Hne. f_equal.
    apply indexPlays_key_unique; try assumption; congruence.
  - rewrite Hr. cbn [action]. now rewrite Hfind.
Qed.

(** X22. A deviation is a threshold in the count: once a play has changed
    the action at some true count, the same result is returned at every
    higher true count. *)
Theorem applyDeviations_threshold (base : Action) (hand : list string)
    (dealerUp : string) (tc tc' : Z) (opts : Opts) :
  tc <= tc' ->
  action (applyDeviations base hand dealerUp tc opts) <> base ->
  applyDeviations base hand dealerUp tc' opts
  = applyDeviations base hand dealerUp tc opts.
Proof.
  intros Hle. rewrite !applyDeviations_table. unfold resolveTable.
  destruct (find (fires base _ _ tc opts) indexPlays) as [p |] eqn:Hfind;
    [intros _ | intros H; now contradiction H].
  apply find_some in Hfind. destruct Hfind as [Hin Hf].
  assert (Hf' : fires base (bestTotal hand) (toDealerUpValue dealerUp)
                      tc' opts p = true).
  { unfold fires in *. rewrite !andb_true_iff in *.
    destruct Hf as [[[[[Hd Hs] Ht] Hu] Hc] Hb].
    repeat split; try assumption.
    rewrite Z.geb_leb in *. apply Z.leb_le in Hc. apply Z.leb_le. lia. }
  rewrite (find_unique _ indexPlays p Hin Hf'); [reflexivity |].
  intros q Hinq Hfq.
  apply fires_inv in Hf. destruct Hf as [_ [Ht [Hu _]]].
  apply fires_inv in Hfq. destruct Hfq as [_ [Htq [Huq _]]].
  apply indexPlays_key_unique; try assumption; congruence.
Qed.

Lemma applyDeviations_threshold_witness :
  applyDeviations Hit ["10"; "2"] "3" 9 (mkOpts true true true)
  = applyDeviations Hit ["10"; "2"] "3" 1 (mkOpts true true true).
Proof.
  apply applyDeviations_threshold; [lia | discriminate].
Defined.

(** ** The component: recommendation and events *)

(** X23. With an upcard selected the component always has a recommendation.
    Its notes are empty exactly when the final action is the baseline; a
    final [Surrender] or [Split] is always the baseline's own and needs a
    two-card hand (a pair for [Split]); a final [Double] on a hand of other
    than two cards can only be the baseline's own. *)
Theorem recommendation_shape (myHand : list string) (dealerUp : string)
    (tc : Z) :
  dealerUp <> "" ->
  exists rec,
    App.recommendation myHand dealerUp tc = Some rec /\
    (App.notes rec = [] <-> App.final rec = App.base rec) /\
    (App.final rec = Surrender ->
     App.base rec = Surrender /\ List.length myHand = 2%nat) /\
    (App.final rec = Split ->
     App.base rec = Split /\ isPair myHand = true) /\
    (App.final rec = Double ->
     App.base rec = Double \/ List.length myHand = 2%nat).
Proof.
  intros Hup. apply String.eqb_neq in Hup.
  unfold App.recommendation, App.baseline. rewrite Hup.
  set (flags := {| canSplit := true;
                   canDouble := (List.length myHand =? 2)%nat;
                   canSurrender := (List.length myHand =? 2)%nat |}).
  set (b := baselineAction myHand dealerUp flags).
  set (dflags := {| canSplit := false;
                    canDouble := (List.length myHand =? 2)%nat;
                    canSurrender := (List.length myHand =? 2)%nat |}).
  pose proof (applyDeviations_outcome_aux b myHand dealerUp tc dflags) as Ho.
  cbv zeta in Ho.
  destruct (baselineAction_gated_aux myHand dealerUp flags) as [HSp HSu].
  fold b in HSp, HSu.
  destruct (applyDeviations b myHand dealerUp tc dflags) as [a n].
  eexists. split; [reflexivity |]. cbn [App.notes App.final App.base].
  cbn [action notes] in Ho.
  destruct Ho as [[= -> ->] | [[-> [Hb [Hl _]]] | [-> [Hb [Hl [_ [Hd _]]]]]]].
  - split; [tauto |]. split; [| split]; intros H.
    + split; [exact H |]. destruct (HSu H) as [_ Hlen]. exact Hlen.
    + split; [exact H |]. destruct (HSp H) as [_ HP]. exact HP.
    + left. exact H.
  - split; [| repeat split; intros; try discriminate].
    split; intros H; [rewrite H in Hl; discriminate | congruence].
  - split; [| split; [| split]; intros H; try discriminate].
    + split; intros H; [rewrite H in Hl; discriminate | congruence].
    + right. cbn in Hd. now apply Nat.eqb_eq.
Qed.

Lemma recommendation_shape_witness :
  exists rec,
    App.recommendation ["6"; "5"] "A" 0 = Some rec /\
    App.final rec = Double /\ App.base rec = Hit.
Proof.
  destruct (recommendation_shape ["6"; "5"] "A" 0) as [rec [H _]];
    [discriminate |].
  exists rec. split; [exact H |].
  cbv in H. injection H as <-. split; reflexivity.
Defined.

(** X24. Undo is the inverse of add: undoing a card just added to the table
    restores the state, and so does undoing a card just added to the hand
    (which takes it off the hand and off the seen cards). *)
Theorem undo_after_add (r : string) (st : App.State) :
  App.undoSeen (App.addSeen r st) = st /\
  App.undoMy (App.addMy r st) = st.
Proof.
  destruct st as [sg pl dk up sn hd].
  unfold App.undoSeen, App.addSeen, App.undoMy, App.addMy.
  cbn [App.stage App.players App.decks App.dealerUp App.seen App.myHand].
  pose proof (removelast_last hd r) as Hh.
  pose proof (removelast_last sn r) as Hs.
  split.
  - now rewrite Hs.
  - destruct hd as [| h t]; cbn [app] in *; now rewrite Hh, Hs.
Qed.

Lemma Subseq_app_one (h s : list string) (r : string) :
  Subseq h s -> Subseq (h ++ [r]) (s ++ [r]).
Proof.
  induction 1 as [s | x h s _ IH | x h s _ IH]; cbn [app].
  - induction s as [| y s IHs]; cbn [app].
    + apply Subseq_take, Subseq_nil.
    + apply Subseq_skip, IHs.
  - apply Subseq_skip, IH.
  - apply Subseq_take, IH.
Qed.

Lemma Subseq_snoc_seen (h s : list string) (r : string) :
  Subseq h s -> Subseq h (s ++ [r]).
Proof.
  induction 1 as [s | x h s _ IH | x h s _ IH]; cbn [app].
  - apply Subseq_nil.
  - apply Subseq_skip, IH.
  - apply Subseq_take, IH.
Qed.

Lemma Subseq_nil_inv (h : list string) : Subseq h [] -> h = [].
Proof. inversion 1; reflexivity. Qed.

Lemma Subseq_removelast (h s : list string) :
  Subseq h s -> Subseq (removelast h) (removelast s).
Proof.
  induction 1 as [s | x h s Hs IH | x h s Hs IH].
  - apply Subseq_nil.
  - destruct s as [| y s'].
    + apply Subseq_nil_inv in Hs. subst h. apply Subseq_nil.
    + change (removelast (x :: y :: s')) with (x :: removelast (y :: s')).
      apply Subseq_skip, IH.
  - destruct h as [| z h'].
    + apply Subseq_nil.
    + destruct s as [| y s']; [inversion Hs |].
      change (removelast (x :: z :: h')) with (x :: removelast (z :: h')).
      change (removelast (x :: y :: s')) with (x :: removelast (y :: s')).
      apply Subseq_take, IH.
Qed.

Lemma step_keeps_Subseq (st : App.State) (e : App.Event) :
  App.keepsSeen e = true ->
  Subseq (App.myHand st) (App.seen st) ->
  Subseq (App.myHand (App.step st e)) (App.seen (App.step st e)).
Proof.
  intros Hk HS. destruct e; try discriminate Hk; cbn.
  - now apply Subseq_snoc_seen.
  - now apply Subseq_app_one.
  - unfold App.undoMy. destruct st as [sg pl dk up sn hd].
    cbn [App.myHand App.seen] in *.
    destruct hd as [| h t]; cbn [App.myHand App.seen];
      [exact HS | now apply Subseq_removelast].
  - apply Subseq_nil.
  - exact HS.
  - apply Subseq_nil.
Qed.

Lemma Subseq_length (h s : list string) :
  Subseq h s -> (List.length h <= List.length s)%nat.
Proof. induction 1; cbn [List.length]; lia. Qed.

(** X25. As long as the table cards are not undone or cleared on their own,
    every card of the hand stays counted among the seen cards: through any
    sequence of the other events (adding to the table or to the hand, undoing
    or clearing the hand, choosing the upcard, resetting) the hand remains a
    subsequence of the seen cards, so it is never longer than them. *)
Theorem hand_stays_seen (st : App.State) (es : list App.Event) :
  Forall (fun e => App.keepsSeen e = true) es ->
  Subseq (App.myHand st) (App.seen st) ->
  Subseq (App.myHand (App.run st es)) (App.seen (App.run st es)) /\
  (List.length (App.myHand (App.run st es))
   <= List.length (App.seen (App.run st es)))%nat.
Proof.
  intros Hes HS.
  assert (H : Subseq (App.myHand (App.run st es)) (App.seen (App.run st es))).
  { unfold App.run. revert st Hes HS.
    induction es as [| e es IH]; intros st Hes HS; cbn [fold_left].
    - exact HS.
    - apply IH; [exact (Forall_inv_tail Hes) |].
      apply step_keeps_Subseq; [exact (Forall_inv Hes) | exact HS]. }
  split; [exact H | exact (Subseq_length _ _ H)].
Qed.

Lemma hand_stays_seen_witness :
  let es := [App.AddSeen "K"; App.AddMy "5"; App.AddSeen "9";
             App.AddMy "6"; App.UndoMy; App.AddMy "A"] in
  Subseq (App.myHand (App.run App.initial es))
         (App.seen (App.run App.initial es)).
Proof.
  apply hand_stays_seen; [| apply Subseq_nil].
  repeat constructor.
Defined.

(** X26. Right after [start], whatever the configuration, the play screen
    shows the advice for an empty hand against a ten: baseline and final
    action [Hit], no note, insurance not applicable. *)
Theorem advice_after_start (st : App.State) :
  App.advice (App.start st)
  = Some (App.mkRecommendation Hit Hit [] "N/A").
Proof.
  unfold App.advice, App.start, App.resetPlay.
  cbn [App.myHand App.dealerUp App.seen App.decks App.players App.stage].
  generalize (trueCount (runningCount []) (decksRemaining (App.decks st) [])).
  intros tc. reflexivity.
Qed.

(** ** Cards of the thirteen ranks *)

Lemma cardValue_valid (r : string) :
  In r RANKS ->
  exists v, cardValue r = Int v /\ toDealerUpValue r = Int v /\
            2 <= v <= 11 /\
            hiLoValue r = (if v <=? 6 then 1 else if v <=? 9 then 0 else -1) /\
            (Z.of_nat (aceBit r) = if v =? 11 then 1 else 0).
Proof.
  unfold RANKS. cbn [In]. intros H.
  repeat (destruct H as [<- | H];
          [eexists; repeat split; try reflexivity; cbv; congruence |]).
  destruct H.
Qed.

(** X27. On the thirteen ranks the utilities agree with one another: the
    dealer up value is an integer from 2 to 11, and the Hi-Lo weight is +1
    when it is at most 6, 0 from 7 to 9 and -1 for tens and the ace. *)
Theorem rank_value_and_weight (r : string) :
  In r RANKS ->
  exists v, toDealerUpValue r = Int v /\ 2 <= v <= 11 /\
            hiLoValue r = (if v <=? 6 then 1 else if v <=? 9 then 0 else -1).
Proof.
  intros H. destruct (cardValue_valid r H) as [v [_ [Hu [Hr [Hw _]]]]].
  exists v. auto.
Qed.

Lemma rank_value_and_weight_witness :
  exists v, toDealerUpValue "Q" = Int v /\ 2 <= v <= 11 /\
            hiLoValue "Q" = (if v <=? 6 then 1 else if v <=? 9 then 0 else -1).
Proof.
  apply rank_value_and_weight. unfold RANKS. simpl. tauto.
Defined.

Lemma rawTotal_valid (ranks : list string) :
  Forall (fun r => In r RANKS) ranks ->
  forall t0, exists z,
    fold_left (fun t r => (t + cardValue r)%num) ranks (Int t0) = Int z /\
    t0 + 2 * Z.of_nat (List.length ranks)
       + 9 * Z.of_nat (aceCountOf ranks) <= z.
Proof.
  unfold aceCountOf.
  induction 1 as [| r ranks Hr _ IH]; intros t0; cbn [fold_left filter].
  - exists t0. split; [reflexivity | cbn; lia].
  - destruct (cardValue_valid r Hr) as [v [Hv [_ [Hrange [_ Hace]]]]].
    rewrite Hv. cbn [JS.add].
    destruct (IH (t0 + v)) as [z [Hz Hle]]. exists z. split; [exact Hz |].
    unfold aceBit in Hace.
    destruct (r =? "A")%string; cbn [List.length] in *;
      destruct (v =? 11) eqn:E; try discriminate Hace;
      try (apply Z.eqb_eq in E); lia.
Qed.

Lemma aceCountOf_le_length (ranks : list string) :
  (aceCountOf ranks <= List.length ranks)%nat.
Proof. unfold aceCountOf. apply filter_length_le. Qed.

(** X28. A hand of cards from the thirteen ranks never evaluates to [NaN]:
    its total is an integer, at least the number of cards. *)
Theorem bestTotal_valid_hand (hand : list string) :
  Forall (fun r => In r RANKS) hand ->
  exists z, total (bestTotal hand) = Int z /\
            Z.of_nat (List.length hand) <= z.
Proof.
  intros Hvalid.
  destruct (rawTotal_valid hand Hvalid 0) as [z [Hz Hle]].
  unfold bestTotal. rewrite settle_raw. unfold rawTotal. rewrite Hz.
  destruct (demote_post (aceCountOf hand) z) as [k [Hk [Hd _]]].
  rewrite Hd. cbn [total]. eexists. split; [reflexivity |].
  pose proof (aceCountOf_le_length hand). lia.
Qed.

Lemma bestTotal_valid_hand_witness :
  exists z, total (bestTotal ["A"; "A"; "A"]) = Int z /\
            Z.of_nat (List.length ["A"; "A"; "A"]) <= z.
Proof.
  apply bestTotal_valid_hand. repeat constructor; unfold RANKS; simpl; tauto.
Defined.

(** ** Deviations against the specification's table *)

(** Where the evaluator's flag is the specification's, the code is the
    specification's table. *)
Lemma applyDeviations_spec_when_flags_agree (base : Action)
    (hand : list string) (dealerUp : string) (tc : Z) (opts : Opts) :
  isSoft (bestTotal hand) = isSoft_spec hand ->
  applyDeviations base hand dealerUp tc opts
  = resolveDeviation_spec base hand dealerUp tc opts.
Proof.
  intros Hflag. rewrite applyDeviations_table.
  unfold resolveDeviation_spec, evaluate_spec. rewrite <- Hflag.
  now destruct (bestTotal hand).
Qed.

Lemma isSoft_spec_aceless (hand : list string) :
  aceCountOf hand = O -> isSoft_spec hand = false.
Proof.
  intros H0. unfold isSoft_spec. rewrite settle_raw, H0. reflexivity.
Qed.

Lemma applyDeviations_spec_aceless (base : Action) (hand : list string)
    (dealerUp : string) (tc : Z) (opts : Opts) :
  aceCountOf hand = O ->
  applyDeviations base hand dealerUp tc opts
  = resolveDeviation_spec base hand dealerUp tc opts.
Proof.
  intros H0. apply applyDeviations_spec_when_flags_agree.
  now rewrite (bestTotal_aceless hand H0), (isSoft_spec_aceless hand H0).
Qed.

(** C8. On A,5 against a ten at a true count of 0 with baseline [Hit], the
    code returns [Stand] with the note of the play "16 vs 10": the hand is a
    soft 16 in the specification's reading, on which no index play matches,
    so that the specification's table returns the baseline with no note.
    Conversely A,5,K is a hard 16, on which the table gives [Stand], and the
    code returns the baseline.  Both come from the flag of [bestTotal]
    (C1). *)
Theorem applyDeviations_fires_on_soft_16 :
  let opts := mkOpts true true true in
  isSoft_spec ["A"; "5"] = true /\
  applyDeviations Hit ["A"; "5"] "10" 0 opts
  = mkDeviated Stand ["Deviation: 16 vs 10 → Stand at TC ≥ 0"] /\
  resolveDeviation_spec Hit ["A"; "5"] "10" 0 opts = mkDeviated Hit [] /\
  isSoft_spec ["A"; "5"; "K"] = false /\
  applyDeviations Hit ["A"; "5"; "K"] "10" 0 opts = mkDeviated Hit [] /\
  resolveDeviation_spec Hit ["A"; "5"; "K"] "10" 0 opts
  = mkDeviated Stand ["Deviation: 16 vs 10 → Stand at TC ≥ 0"].
Proof. repeat split. Qed.

(** C3, amended. [applyDeviations] changes the action only to [Stand] on a
    total of 16, 15 or 12, or to [Double] on a total of 10 or 11; and on
    every hand that holds no ace, a two-card pair included, its result is
    the first matching index play of the specification's table on the
    hand's total.  Hands holding an ace are left out. *)
Theorem applyDeviations_on_totals (base : Action) (hand : list string)
    (dealerUp : string) (tc : Z) (opts : Opts) :
  let r := applyDeviations base hand dealerUp tc opts in
  let t := total (bestTotal hand) in
  (r = mkDeviated base [] \/
   (action r = Stand /\ base <> Stand /\
    (t = Int 16 \/ t = Int 15 \/ t = Int 12)) \/
   (action r = Double /\ base <> Double /\ (t = Int 10 \/ t = Int 11))) /\
  (aceCountOf hand = O ->
   r = resolveDeviation_spec base hand dealerUp tc opts).
Proof.
  intros r t. split.
  - pose proof (applyDeviations_outcome_aux base hand dealerUp tc opts) as H.
    cbv zeta in H. fold r t in H.
    destruct H as [H | [[Ha [Hb [_ [_ Ht]]]] | [Ha [Hb [_ [_ [_ Ht]]]]]]];
      [left | right; left | right; right]; auto.
  - apply applyDeviations_spec_aceless.
Qed.

Lemma applyDeviations_on_totals_witness :
  applyDeviations Split ["6"; "6"] "3" 1 (mkOpts true true true)
  = resolveDeviation_spec Split ["6"; "6"] "3" 1 (mkOpts true true true).
Proof.
  apply (applyDeviations_on_totals Split ["6"; "6"] "3" 1). reflexivity.
Defined.

(** ** True count in binary64 *)

Lemma B64_ltb_zero (x : PrimFloat.float) (q : Q) :
  B64.value x = Some q ->
  PrimFloat.ltb x (B64.ofZ 0) = if Qlt_le_dec q 0 then true else false.
Proof.
  unfold B64.value. rewrite FloatAxioms.ltb_spec.
  change (FloatOps.Prim2SF (B64.ofZ 0)) with (SpecFloat.S754_zero false).
  destruct (FloatOps.Prim2SF x) as [s | s | | s m e]; try discriminate.
  - intros [= <-]. reflexivity.
  - intros [= <-]. unfold SpecFloat.SFltb, SpecFloat.SFcompare.
    assert (Hpow : forall p, 0 < 2 ^ Zpos p)
      by (intros p; apply Z.pow_pos_nonneg; lia).
    match goal with
    | |- context [Qlt_le_dec ?a ?b] => destruct (Qlt_le_dec a b) as [H | H]
    end;
      destruct s, e as [| p | p]; try reflexivity; exfalso;
      unfold Qlt, Qle, inject_Z in H; cbn [Qnum Qden] in H;
      try pose proof (Hpow p); nia.
Qed.

Lemma Q_truncate (q : Q) :
  (if Qlt_le_dec q 0 then Qceiling q else Qfloor q)
  = Z.quot (Qnum q) (Zpos (Qden q)).
Proof.
  destruct q as [a p]. cbn [Qnum Qden].
  destruct (Qlt_le_dec (a # p) 0) as [Hneg | Hnn].
  - apply Qceiling_quot_neg. unfold Qlt in Hneg. cbn in Hneg. lia.
  - apply Qfloor_quot_nonneg. unfold Qle in Hnn. cbn in Hnn. lia.
Qed.

(** C5, as stated, fails in binary64.  With one deck and twelve cards seen
    (ten low cards and two eights, running count 10) the deck estimate is
    the float nearest to 40/52, whose exact value is
    6928614811339225 / 2^53; the exact quotient of 10 by that value is just
    below 13 and truncates to 12, while the program's quotient rounds to 13
    and [trueCount] returns 13. *)
Lemma trueCount_binary64_differs_from_exact :
  let seen := (repeat "5" 10 ++ ["8"; "8"])%list in
  let dr := B64.decksRemaining (B64.ofZ 1) seen in
  runningCount seen = 10 /\
  B64.value dr = Some (6928614811339225 # 9007199254740992) /\
  B64.trueCount (B64.ofZ 10) dr = Some 13 /\
  Z.quot (10 * 9007199254740992) 6928614811339225 = 12.
Proof. vm_compute. repeat split. Qed.

(** C5, amended.  Whenever the binary64 quotient
    [runningCount / decksRemaining] is a finite number [q], [trueCount] is
    [q] truncated toward zero: its ceiling when [q] is negative, its floor
    otherwise.  The quotient is the rounded one, not the exact one. *)
Theorem trueCount_binary64_truncates (rc dr : PrimFloat.float) (q : Q) :
  B64.value (PrimFloat.div rc dr) = Some q ->
  B64.trueCount rc dr = Some (Z.quot (Qnum q) (Zpos (Qden q))) /\
  ((q < 0)%Q -> B64.trueCount rc dr = Some (Qceiling q)) /\
  ((0 <= q)%Q -> B64.trueCount rc dr = Some (Qfloor q)).
Proof.
  intros Hq.
  assert (Htc : B64.trueCount rc dr
                = Some (if Qlt_le_dec q 0 then Qceiling q else Qfloor q)).
  { change (B64.trueCount rc dr)
      with (if PrimFloat.ltb (PrimFloat.div rc dr) (B64.ofZ 0)
            then B64.Math_ceil (PrimFloat.div rc dr)
            else B64.Math_floor (PrimFloat.div rc dr)).
    rewrite (B64_ltb_zero _ q Hq).
    unfold B64.Math_ceil, B64.Math_floor. rewrite Hq.
    destruct (Qlt_le_dec q 0); reflexivity. }
  split; [| split].
  - rewrite Htc. f_equal. apply Q_truncate.
  - intros Hneg. rewrite Htc.
    destruct (Qlt_le_dec q 0) as [_ | Hnn];
      [reflexivity | exfalso; exact (Qlt_not_le _ _ Hneg Hnn)].
  - intros Hnn. rewrite Htc.
    destruct (Qlt_le_dec q 0) as [Hneg | _];
      [exfalso; exact (Qlt_not_le _ _ Hneg Hnn) | reflexivity].
Qed.

Lemma trueCount_binary64_truncates_witness :
  B64.trueCount (B64.ofZ (-3)) (B64.ofZ 2) = Some (-1) /\
  B64.trueCount (B64.ofZ 7) (B64.ofZ 2) = Some 3.
Proof.
  split.
  - destruct (trueCount_binary64_truncates (B64.ofZ (-3)) (B64.ofZ 2)
                (-6755399441055744 # 4503599627370496) eq_refl) as [H _].
    rewrite H. reflexivity.
  - destruct (trueCount_binary64_truncates (B64.ofZ 7) (B64.ofZ 2)
                (7881299347898368 # 2251799813685248) eq_refl) as [H _].
    rewrite H. reflexivity.
Defined.

(** The composed count on a receivable state: two decks, fifty cards seen
    with running count 27.  Exactly, 27 / (54/52) is 26; in binary64 the
    estimate rounds above 54/52, the quotient is 25.999999999999996 and the
    program shows 25. *)
Lemma trueCount_binary64_composed_example :
  let seen := (repeat "5" 27 ++ repeat "8" 23)%list in
  runningCount seen = 27 /\
  B64.trueCount (B64.ofZ (runningCount seen))
                (B64.decksRemaining (B64.ofZ 2) seen) = Some 25 /\
  trueCount (runningCount seen) (decksRemaining 2 seen) = 26.
Proof. vm_compute. repeat split. Qed.
